(** * Attorney directory scraper: extraction, pagination and persistence

    A shallow embedding of [texas_bar.py] (result extraction, block parsers,
    pagination, the searches of [scrape]), [database.py] (the
    [insert_attorney] upsert over the SQLite schema of [init_database],
    [search_attorneys], [get_stats]) and [run_scrapers.py] ([run_scraper],
    [run_all_scrapers], [main]).

    Python [str] values are strings of bytes (UTF-8).  Whitespace
    ([str.strip], [\s]), the case folding of [re.I] and the characters of
    LIKE are Python's and SQLite's, read off the UTF-8 encoding.  Digits
    ([\d]), [str.title], [str.upper] and the length of a text are the ASCII
    ones, which agree with Python's on ASCII text: the statements that
    depend on them are made for ASCII text ([is_ascii]).  [None] is
    [option]'s [None]; Python truthiness is written out where the source
    tests it. *)

From Stdlib Require Import String Ascii List Bool Arith ZArith Lia.
From Stdlib Require Import Permutation Sorted.
Import ListNotations.
Local Open Scope string_scope.
Local Open Scope list_scope.
Local Open Scope nat_scope.

(** ** Characters and strings *)

Definition is_digit (c : ascii) : bool :=
  (48 <=? nat_of_ascii c) && (nat_of_ascii c <=? 57).

(** [str.isspace] / the regex class [\s]: the characters Python counts as
    whitespace, by the length of their UTF-8 encoding.  One byte: TAB..CR,
    FS..US and the space. *)
Definition isspace (c : ascii) : bool :=
  let n := nat_of_ascii c in
  ((9 <=? n) && (n <=? 13)) || ((28 <=? n) && (n <=? 32)).

(** Two bytes: U+0085 (C2 85) and U+00A0 (C2 A0). *)
Definition isspace2 (a b : ascii) : bool :=
  (nat_of_ascii a =? 194)
  && ((nat_of_ascii b =? 133) || (nat_of_ascii b =? 160)).

(** Three bytes: U+1680 (E1 9A 80), U+2000..U+200A (E2 80 80..8A), U+2028,
    U+2029, U+202F (E2 80 A8, A9, AF), U+205F (E2 81 9F) and U+3000
    (E3 80 80). *)
Definition isspace3 (a b c : ascii) : bool :=
  let x := nat_of_ascii a in
  let y := nat_of_ascii b in
  let z := nat_of_ascii c in
  ((x =? 225) && (y =? 154) && (z =? 128))
  || ((x =? 226) && (y =? 128)
      && (((128 <=? z) && (z <=? 138)) || (z =? 168) || (z =? 169)
          || (z =? 175)))
  || ((x =? 226) && (y =? 129) && (z =? 159))
  || ((x =? 227) && (y =? 128) && (z =? 128)).

(** Every byte is below 128: the text is ASCII. *)
Fixpoint is_ascii (s : string) : bool :=
  match s with
  | EmptyString => true
  | String c s' => (nat_of_ascii c <? 128) && is_ascii s'
  end.

Definition is_upper (c : ascii) : bool :=
  (65 <=? nat_of_ascii c) && (nat_of_ascii c <=? 90).

Definition is_lower (c : ascii) : bool :=
  (97 <=? nat_of_ascii c) && (nat_of_ascii c <=? 122).

Definition lower_char (c : ascii) : ascii :=
  if is_upper c then ascii_of_nat (nat_of_ascii c + 32) else c.

Definition upper_char (c : ascii) : ascii :=
  if is_lower c then ascii_of_nat (nat_of_ascii c - 32) else c.


(** [s[n:]] *)
Fixpoint drop (n : nat) (s : string) : string :=
  match n, s with
  | O, _ => s
  | S n', String _ s' => drop n' s'
  | S _, EmptyString => EmptyString
  end.

(** [s[:n]] *)
Definition take (n : nat) (s : string) : string := substring 0 n s.

(** [s.startswith(p)] *)
Definition startswith (p s : string) : bool := prefix p s.

(** Whether [s] starts with the literal [p], ASCII letters compared without
    regard to case. *)
Fixpoint prefix_ci (p s : string) : bool :=
  match p, s with
  | EmptyString, _ => true
  | String a p', String b s' =>
      Ascii.eqb (lower_char a) (lower_char b) && prefix_ci p' s'
  | String _ _, EmptyString => false
  end.

Fixpoint all_digits (s : string) : bool :=
  match s with
  | EmptyString => true
  | String c s' => is_digit c && all_digits s'
  end.

(** The longest run of digits at the start of [s]: what [(\d+)] captures. *)
Fixpoint take_digits (s : string) : string :=
  match s with
  | EmptyString => EmptyString
  | String c s' => if is_digit c then String c (take_digits s') else EmptyString
  end.

(** [s.lstrip()], and what [\s*] skips: the whitespace characters at the
    start of [s]. *)
Fixpoint lstrip (s : string) : string :=
  match s with
  | EmptyString => EmptyString
  | String a s1 =>
      if isspace a then lstrip s1
      else
        match s1 with
        | EmptyString => s
        | String b s2 =>
            if isspace2 a b then lstrip s2
            else
              match s2 with
              | EmptyString => s
              | String c s3 => if isspace3 a b c then lstrip s3 else s
              end
        end
  end.

(** [s.rstrip()]: [s] up to the point from which only whitespace follows.
    No whitespace character starts inside the encoding of another
    character, so the bytes can be taken one at a time. *)
Fixpoint rstrip (s : string) : string :=
  match s with
  | EmptyString => EmptyString
  | String a s' =>
      match lstrip s with
      | EmptyString => EmptyString
      | String _ _ => String a (rstrip s')
      end
  end.

(** [s.strip()] *)
Definition strip (s : string) : string := rstrip (lstrip s).

(** [str.title]: the first letter of every run of letters in upper case, the
    other letters of the run in lower case, everything else unchanged. *)
Fixpoint title_aux (prev_cased : bool) (s : string) : string :=
  match s with
  | EmptyString => EmptyString
  | String c s' =>
      if is_lower c then
        String (if prev_cased then c else upper_char c) (title_aux true s')
      else if is_upper c then
        String (if prev_cased then lower_char c else c) (title_aux true s')
      else String c (title_aux false s')
  end.

Definition title (s : string) : string := title_aux false s.

(** [x in [s1, s2, ...]] for strings. *)
Definition str_in (x : string) (l : list string) : bool :=
  existsb (String.eqb x) l.

(** Python truthiness of a value that is [None] or a [str]. *)
Definition truthy (o : option string) : bool :=
  match o with
  | Some s => negb (String.eqb s "")
  | None => false
  end.

(** ** Occurrences of a literal, ASCII letters in either case *)




(** ** Regular expressions of the source

    Each pattern of the source is an alternation of literals, possibly with
    a digit group; [re.search] returns the leftmost match. *)

Fixpoint first_some {A : Type} (l : list (option A)) : option A :=
  match l with
  | [] => None
  | Some a :: _ => Some a
  | None :: l' => first_some l'
  end.

(** The characters outside ASCII that a letter of a pattern matches under
    [re.I], in UTF-8: [i] matches U+0130 and U+0131, [k] matches U+212A and
    [s] matches U+017F. *)
Definition folds_to (a : ascii) : list string :=
  let c := lower_char a in
  if Ascii.eqb c "i" then
    [String "196" (String "176" ""); String "196" (String "177" "")]
  else if Ascii.eqb c "k" then [String "226" (String "132" (String "170" ""))]
  else if Ascii.eqb c "s" then [String "197" (String "191" "")]
  else [].

(** The character [a] of a pattern at the start of [s] under [re.I]: what is
    left of [s] behind the character it matches. *)
Definition match_char_ignorecase (a : ascii) (s : string) : option string :=
  match s with
  | EmptyString => None
  | String b s' =>
      if Ascii.eqb (lower_char a) (lower_char b) then Some s'
      else option_map (fun f => drop (String.length f) s)
                      (find (fun f => startswith f s) (folds_to a))
  end.

(** The literal [p] at the start of [s] under [re.I]: what is left of [s]
    behind the match. *)
Fixpoint match_ignorecase (p s : string) : option string :=
  match p with
  | EmptyString => Some s
  | String a p' =>
      match match_char_ignorecase a s with
      | Some s' => match_ignorecase p' s'
      | None => None
      end
  end.

(** The alternative of [alts] (tried in order) that matches at the start of
    [s] under [re.I], as the matched text. *)
Definition match_here_ignorecase (alts : list string) (s : string)
  : option string :=
  first_some
    (map (fun p =>
            option_map
              (fun rest => take (String.length s - String.length rest) s)
              (match_ignorecase p s)) alts).

(** [re.compile('a1|a2|...', re.I).search(s)]: the text of the leftmost match. *)
Fixpoint re_search_ignorecase (alts : list string) (s : string)
  : option string :=
  match match_here_ignorecase alts s with
  | Some m => Some m
  | None =>
      match s with
      | EmptyString => None
      | String _ s' => re_search_ignorecase alts s'
      end
  end.

Definition re_matches_ignorecase (alts : list string) (s : string) : bool :=
  match re_search_ignorecase alts s with Some _ => true | None => false end.

(** [re.search(r'BarNumber=(\d+)', href)]: group 1 of the leftmost match. *)
Fixpoint search_href_bar_number (s : string) : option string :=
  let here :=
    if startswith "BarNumber=" s then
      match take_digits (drop 10 s) with
      | EmptyString => None
      | d => Some d
      end
    else None in
  match here with
  | Some d => Some d
  | None =>
      match s with
      | EmptyString => None
      | String _ s' => search_href_bar_number s'
      end
  end.

(** [re.match(r'^\d{8}$', text)]: eight digits, then the end of the text or a
    single final newline (which [$] allows). *)
Definition match_eight_digits (s : string) : bool :=
  let d := take_digits s in
  (String.length d =? 8)
  && (String.eqb (drop 8 s) "" || String.eqb (drop 8 s) (String "010" "")).

(** [(\d{8})] at the start of [s]. *)
Definition digits8 (s : string) : option string :=
  let d := take 8 s in
  if (String.length d =? 8) && all_digits d then Some d else None.

(** [\s*:?\s*(\d{8})] at the start of [s]. *)
Definition bar_tail (s : string) : option string :=
  let s1 := lstrip s in
  match digits8 s1 with
  | Some d => Some d
  | None =>
      match s1 with
      | String ":" s2 => digits8 (lstrip s2)
      | _ => None
      end
  end.

(** The optional label [(?:No\.?|Number|#)?]: every way it can match. *)
Definition bar_labels : list string := ["No."; "No"; "Number"; "#"; ""].

(** [Bar\s*(?:No\.?|Number|#)?\s*:?\s*(\d{8})] at the start of [s], under
    [re.I]: group 1.  No letter of the pattern matches a character outside
    ASCII.  The text between [Bar] and the group holds no digit, so the
    group is the same whichever way the label matched. *)
Definition bar_match_here (s : string) : option string :=
  if prefix_ci "Bar" s then
    let s1 := lstrip (drop 3 s) in
    first_some
      (map (fun l => if prefix_ci l s1
                     then bar_tail (drop (String.length l) s1) else None)
           bar_labels)
  else None.

(** [re.search(r'Bar\s*(?:No\.?|Number|#)?\s*:?\s*(\d{8})', text, re.I)] *)
Fixpoint search_bar_number (s : string) : option string :=
  match bar_match_here s with
  | Some d => Some d
  | None =>
      match s with
      | EmptyString => None
      | String _ s' => search_bar_number s'
      end
  end.

(** ** The parsed document (BeautifulSoup)

    A tag carries its name, the tokens of its [class] attribute and its
    [href] attribute; text nodes are [NavigableString]s. *)

#[warning="-register-all"]
Inductive node : Type :=
| Tag (name : string) (cls : list string) (href : option string)
      (contents : list node)
| NavigableString (s : string).

Definition is_tag (n : node) : bool :=
  match n with Tag _ _ _ _ => true | NavigableString _ => false end.

Definition tag_name (n : node) : string :=
  match n with Tag nm _ _ _ => nm | NavigableString _ => "" end.

Definition tag_classes (n : node) : list string :=
  match n with Tag _ c _ _ => c | NavigableString _ => [] end.

(** [tag.get('href')] *)
Definition tag_href (n : node) : option string :=
  match n with Tag _ _ h _ => h | NavigableString _ => None end.

(** A node and everything below it, in document order. *)
Fixpoint preorder (n : node) : list node :=
  n :: match n with
       | Tag _ _ _ kids => flat_map preorder kids
       | NavigableString _ => []
       end.

(** An element as the library hands it out: the node together with the
    nodes that follow the end of its subtree in document order. *)
Definition element : Type := (node * list node)%type.

(** Every node of the subtree of [n] as an element, in document order, when
    [rest] is what follows [n] in the document. *)
Fixpoint walk (n : node) (rest : list node) : list element :=
  (n, rest) ::
  match n with
  | Tag _ _ _ kids =>
      (fix walk_list (l : list node) : list element :=
         match l with
         | [] => []
         | k :: l' => walk k (flat_map preorder l' ++ rest) ++ walk_list l'
         end) kids
  | NavigableString _ => []
  end.

(** [e.descendants] *)
Definition descendants (e : element) : list element :=
  tl (walk (fst e) (snd e)).

(** [e.next_elements]: the descendants of [e], then what follows it. *)
Definition next_elements (e : element) : list node :=
  tl (preorder (fst e)) ++ snd e.

(** [e.get_text()] *)
Definition get_text (n : node) : string :=
  String.concat ""
    (flat_map (fun m => match m with
                        | NavigableString s => [s]
                        | Tag _ _ _ _ => []
                        end) (preorder n)).

(** [tag.string]: the text of a tag whose only child is a string, or whose
    only child is a tag with such a [string]. *)
Fixpoint tag_string (n : node) : option string :=
  match n with
  | NavigableString s => Some s
  | Tag _ _ _ [k] => tag_string k
  | Tag _ _ _ _ => None
  end.

(** [e.find_all(p)] and [e.find(p)] for a predicate on nodes. *)
Definition find_all (p : node -> bool) (e : element) : list element :=
  filter (fun d => p (fst d)) (descendants e).

Definition find_first (p : node -> bool) (e : element) : option element :=
  hd_error (find_all p e).

(** [e.find_next()]: the next tag after the start of [e]. *)
Definition find_next (e : element) : option node :=
  List.find is_tag (next_elements e).

Definition named (nm : string) (n : node) : bool :=
  is_tag n && String.eqb (tag_name n) nm.

(** A [class] criterion given as a compiled pattern: some class token of the
    tag matches it. *)
Definition class_matches (alts : list string) (n : node) : bool :=
  existsb (re_matches_ignorecase alts) (tag_classes n).

(** A CSS class selector [.c]. *)
Definition has_class (c : string) (n : node) : bool :=
  is_tag n && str_in c (tag_classes n).

(** ** Attorney records

    The dictionary handed from the parsers to the persistence layer, read
    the way [insert_attorney] reads it: [attorney_data.get(key)] is [None]
    for a key that is missing or holds [None]. *)

Inductive pyval : Type :=
| PyNone
| PyStr (s : string)
| PyInt (z : Z).

Record attorney : Type := mk_attorney {
  bar_number : option string;
  state : option string;
  first_name : option string;
  last_name : option string;
  full_name : option string;
  status : option string;
  admission_date : option string;
  firm_name : option string;
  city : option string;
  county : option string;
  address : option string;
  email : option string;
  phone : option string;
  website : option string;
  law_school : option string;
  graduation_year : option string;
  practice_areas : list pyval
}.

(** The dictionary literal both block parsers return (the row parser's has
    no [firm_name] key). *)
Definition result_dict (bar : option string) (name : string)
    (first last : option string) (stat : string)
    (cty firm : option string) (areas : list pyval) : attorney :=
  {| bar_number := bar; state := None;
     first_name := first; last_name := last; full_name := Some name;
     status := Some stat; admission_date := None; firm_name := firm;
     city := cty; county := None; address := None; email := None;
     phone := None; website := None; law_school := None;
     graduation_year := None; practice_areas := areas |}.

(** ** [TexasBarScraper] *)

Definition BASE_URL : string := "https://www.texasbar.com".

Definition result_classes : list string :=
  ["attorney-result"; "member-listing"; "search-result"].
Definition table_pattern : list string := ["result"; "member"; "attorney"].
Definition div_pattern : list string := ["member"; "attorney"; "result"].
Definition row_cities : list string :=
  ["Houston"; "Dallas"; "Austin"; "San Antonio"; "Fort Worth"].
Definition div_cities : list string :=
  ["Houston"; "Dallas"; "Austin"; "San Antonio"; "Fort Worth"; "El Paso"].
Definition name_tags : list string := ["h2"; "h3"; "h4"; "a"; "strong"].
Definition firm_pattern : list string := ["Firm"; "Company"; "Employer"].
(** [Next] or the character U+00BB, which is the bytes C2 BB. *)
Definition pager_pattern : list string :=
  ["Next"; String (ascii_of_nat 194) (String (ascii_of_nat 187) "")].

(** The three extraction strategies of [parse_results], for the record of
    which of them a call ran. *)
Inductive strategy : Type := ResultBlocks | TableRows | GenericDivs.

(** The states in which the traversal of one search context ends: no next
    link ([Done]), a next page that could not be fetched ([Failed]), or the
    nesting budget of the interpreter used up ([Unfinished]). *)
Inductive outcome : Type := Done | Failed | Unfinished.

Definition is_empty {A : Type} (l : list A) : bool :=
  match l with [] => true | _ :: _ => false end.

(** [soup.select('.attorney-result, .member-listing, .search-result')] *)
Definition select_results (soup : element) : list element :=
  find_all (fun n => existsb (fun c => has_class c n) result_classes) soup.

(** [soup.find('table', {'class': re.compile(r'result|member|attorney', re.I)})] *)
Definition find_table (soup : element) : option element :=
  find_first (fun n => named "table" n && class_matches table_pattern n) soup.

(** [table.find_all('tr')[1:]] *)
Definition rows_after_header (table : element) : list element :=
  tl (find_all (named "tr") table).

(** [soup.find_all('div', {'class': re.compile(r'member|attorney|result', re.I)})] *)
Definition find_divs (soup : element) : list element :=
  find_all (fun n => named "div" n && class_matches div_pattern n) soup.

(** Lines 102-112 of [parse_results]: the blocks to parse, with the
    strategies that were run to find them. *)
Definition find_results (soup : element) : list element * list strategy :=
  let results := select_results soup in
  let '(results, ran) :=
    if is_empty results then
      (match find_table soup with
       | Some table => rows_after_header table
       | None => results
       end, [ResultBlocks; TableRows])
    else (results, [ResultBlocks]) in
  if is_empty results then (find_divs soup, ran ++ [GenericDivs])
  else (results, ran).

(** [soup.find('a', text=re.compile(r'Next|»', re.I))]: the first [a] tag
    whose [string] matches. *)
Definition find_pager (soup : element) : option element :=
  find_first (fun n => named "a" n &&
                match tag_string n with
                | Some s => re_matches_ignorecase pager_pattern s
                | None => false
                end) soup.

(** Lines 131-136: the address of the next page, when the page has a pager
    with a non-empty [href]. *)
Definition next_url (soup : element) : option string :=
  match find_pager soup with
  | Some pager =>
      match tag_href (fst pager) with
      | Some h =>
          if truthy (Some h) then
            Some (if startswith "http" h then h else (BASE_URL ++ h)%string)
          else None
      | None => None
      end
  | None => None
  end.

(** The base class [BaseBarScraper], whose methods the scraper inherits:
    text cleaning, name splitting, persistence of one record and page
    fetching.  [save_attorney] returns the new store and whether it
    returned normally; [get_page] returns the parsed page, or [None] when
    the fetch fails. *)
Class BaseBarScraper : Type := {
  Store : Type;
  clean_text : option string -> option string;
  parse_name : string -> option string * option string;
  save_attorney : attorney -> Store -> Store * bool;
  get_page : string -> option node
}.

(** [text=re.compile(r'Firm|Company|Employer', re.I)]: a string that names a
    firm, company or employer. *)
Definition firm_label (n : node) : bool :=
  match n with
  | NavigableString s => re_matches_ignorecase firm_pattern s
  | Tag _ _ _ _ => false
  end.

Section Scraper.

Context {base : BaseBarScraper}.

(** The variables [name], [bar_number], [city] of [parse_table_row]. *)
Definition row_vars : Type :=
  (option string * option string * option string)%type.

(** One pass of the loop over the cells (lines 162-178). *)
Definition row_cell (vars : row_vars) (cell : element) : row_vars :=
  let '(name, bar, cty) := vars in
  let text := clean_text (Some (get_text (fst cell))) in
  let link := find_first (named "a") cell in
  let no_link_branch :=
    match text with
    | Some t =>
        if truthy text && match_eight_digits t then (name, Some t, cty)
        else if truthy text && (2 <? String.length t) then
          if str_in (title t) row_cities then (name, bar, Some (title t))
          else vars
        else vars
    | None => vars
    end in
  match link with
  | Some l =>
      if negb (truthy name) then
        let name' := clean_text (Some (get_text (fst l))) in
        let href := match tag_href (fst l) with Some h => h | None => "" end in
        match search_href_bar_number href with
        | Some b => (name', Some b, cty)
        | None => (name', bar, cty)
        end
      else no_link_branch
  | None => no_link_branch
  end.

(** The variables after the loop over the cells of [row]. *)
Definition row_scan (row : element) : row_vars :=
  fold_left row_cell (find_all (named "td") row) (None, None, None).

Definition parse_table_row (row : element) : option attorney :=
  let cells := find_all (named "td") row in
  if length cells <? 2 then None
  else
    let '(name, bar, cty) := row_scan row in
    match name with
    | Some nm =>
        if truthy name then
          let '(first, last) := parse_name nm in
          Some (result_dict bar nm first last "Active" cty None [])
        else None
    | None => None
    end.

(** The variable [name] of [parse_div_result] (lines 205-207). *)
Definition div_name (div : element) : option string :=
  match find_first (fun n => is_tag n && str_in (tag_name n) name_tags) div with
  | Some name_elem => clean_text (Some (get_text (fst name_elem)))
  | None => None
  end.

(** The variable [firm] (lines 221-223): the cleaned text of the tag that
    follows the first string naming a firm, company or employer. *)
Definition div_firm (div : element) : option string :=
  match find_first firm_label div with
  | Some firm_elem =>
      clean_text (match find_next firm_elem with
                  | Some n => Some (get_text n)
                  | None => None
                  end)
  | None => None
  end.

Definition parse_div_result (div : element) : option attorney :=
  let name := div_name div in
  let text := get_text (fst div) in
  let bar := search_bar_number text in
  let cty := option_map title (re_search_ignorecase div_cities text) in
  let firm := div_firm div in
  match name with
  | Some nm =>
      if truthy name then
        let '(first, last) := parse_name nm in
        Some (result_dict bar nm first last "Active" cty firm [])
      else None
  | None => None
  end.

Definition parse_result (e : element) : option attorney :=
  if String.eqb (tag_name (fst e)) "tr" then parse_table_row e
  else parse_div_result e.

(** The scraper object: the persistent store behind [save_attorney], the
    counters of [self.stats], and the addresses [get_page] was called on. *)
Record scraper : Type := mk_scraper {
  store : Store;
  found : nat;
  errors : nat;
  fetched : list string
}.

(** One pass of the loop over the result blocks (lines 115-128): an
    exception raised while saving is counted in [errors] and the loop goes
    on.  The local [count] only drives progress printing and is left out,
    as are the printing and the politeness delays. *)
Definition process_result (st : scraper) (result : element) : scraper :=
  match parse_result result with
  | Some att =>
      let '(store', returned) := save_attorney att (store st) in
      if returned then
        mk_scraper store' (S (found st)) (errors st) (fetched st)
      else
        mk_scraper store' (found st) (S (errors st)) (fetched st)
  | None => st
  end.

(** What the calls of [save_attorney] in the loop over [results] do, in
    order, from the store [s]: [true] for a call that returns, [false] for
    one that raises. *)
Fixpoint save_outcomes (results : list element) (s : Store) : list bool :=
  match results with
  | [] => []
  | e :: rest =>
      match parse_result e with
      | Some att =>
          let '(s', returned) := save_attorney att s in
          returned :: save_outcomes rest s'
      | None => save_outcomes rest s
      end
  end.

(** [parse_results]; [fuel] bounds the depth of the recursion on the next
    page, which the source leaves to the interpreter. *)
Fixpoint parse_results (fuel : nat) (soup : element) (st : scraper)
  : scraper * outcome :=
  match fuel with
  | O => (st, Unfinished)
  | S fuel' =>
      let st1 := fold_left process_result (fst (find_results soup)) st in
      match next_url soup with
      | Some url =>
          let st2 := mk_scraper (store st1) (found st1) (errors st1)
                                (fetched st1 ++ [url]) in
          match get_page url with
          | Some page => parse_results fuel' (page, []) st2
          | None => (st2, Failed)
          end
      | None => (st1, Done)
      end
  end.

(** The name the block parser resolves for a block: the variable [name]
    when the parser reaches its test [if not name]. *)
Definition resolved_name (e : element) : option string :=
  if String.eqb (tag_name (fst e)) "tr" then fst (fst (row_scan e))
  else div_name e.






(** The traversal from [soup] ends after at most [k] fetches: the chain of
    next links reaches a page without one, or one that cannot be fetched. *)
Fixpoint chain_ends (k : nat) (soup : element) : bool :=
  match next_url soup with
  | None => true
  | Some url =>
      match k with
      | O => false
      | S k' =>
          match get_page url with
          | Some page => chain_ends k' (page, [])
          | None => true
          end
      end
  end.

(** The addresses fetched by a traversal from [soup], up to [k] of them. *)
Fixpoint next_urls (k : nat) (soup : element) : list string :=
  match next_url soup with
  | None => []
  | Some url =>
      match k with
      | O => []
      | S k' =>
          url :: match get_page url with
                 | Some page => next_urls k' (page, [])
                 | None => []
                 end
      end
  end.

End Scraper.

Arguments scraper {base}.
Arguments mk_scraper {base} _ _ _ _.
Arguments store {base} _.
Arguments found {base} _.
Arguments errors {base} _.
Arguments fetched {base} _.

(** ** The inherited helpers, from their specification *)

(** The word read so far, when there is one, before the following ones. *)
Definition flush_word (cur : string) (l : list string) : list string :=
  if String.eqb cur "" then l else cur :: l.

(** [text.split()]: the maximal runs of non-whitespace characters. *)
Fixpoint split_ws (cur : string) (s : string) : list string :=
  match s with
  | EmptyString => flush_word cur []
  | String a s1 =>
      if isspace a then flush_word cur (split_ws "" s1)
      else
        match s1 with
        | EmptyString => split_ws (cur ++ String a "")%string s1
        | String b s2 =>
            if isspace2 a b then flush_word cur (split_ws "" s2)
            else
              match s2 with
              | EmptyString => split_ws (cur ++ String a "")%string s1
              | String c s3 =>
                  if isspace3 a b c then flush_word cur (split_ws "" s3)
                  else split_ws (cur ++ String a "")%string s1
              end
        end
  end.

(** Modelled from the spec: [BaseBarScraper.clean_text] is not among the
    sources.  "Trims whitespace and collapses internal whitespace runs in
    every text field"; a missing text stays missing. *)
Definition clean_text_spec (text : option string) : option string :=
  option_map (fun t => String.concat " " (split_ws "" t)) text.

(** Modelled from the spec: [BaseBarScraper.parse_name] is not among the
    sources.  "First token = first name, remaining tokens = last name;
    single-token names have an empty first name". *)
Definition parse_name_spec (name : string) : option string * option string :=
  match split_ws "" name with
  | [] => (Some "", Some "")
  | [t] => (Some "", Some t)
  | t :: rest => (Some t, Some (String.concat " " rest))
  end.

(** Modelled from the spec: [BaseBarScraper.save_attorney] is not among the
    sources.  Every record is handed to the persistence gateway; here the
    store is the list of the records handed over, in order. *)
Definition save_attorney_log (a : attorney) (saved : list attorney)
  : list attorney * bool :=
  (saved ++ [a], true).

(** The base class with these helpers, over a site given as a map from
    addresses to pages. *)
Definition spec_scraper (site : string -> option node) : BaseBarScraper :=
  {| Store := list attorney;
     clean_text := clean_text_spec;
     parse_name := parse_name_spec;
     save_attorney := save_attorney_log;
     get_page := site |}.

(** ** The database ([database.py])

    The tables [attorneys] and [practice_areas] of [init_database] as lists
    of rows in insertion order.  A connection also holds what SQLite keeps
    per table with [AUTOINCREMENT] (the largest rowid ever given out) and per
    connection ([sqlite3_last_insert_rowid], which is what [cursor.lastrowid]
    reads after an [INSERT] statement: the rowid of the most recent row that
    was really inserted through the connection, in any table; a statement
    that inserts nothing leaves it unchanged).  Rowids are unbounded here,
    so the statements about the rowid a call gives out and returns are made
    below [max_rowid]; foreign keys are not enforced (SQLite's default). *)

Record attorney_row : Type := mk_attorney_row {
  id : Z;
  r_bar_number : option string;
  r_state : string;                 (* NOT NULL *)
  r_first_name : option string;
  r_last_name : option string;
  r_full_name : string;             (* NOT NULL *)
  r_status : option string;
  r_admission_date : option string;
  r_firm_name : option string;
  r_city : option string;
  r_county : option string;
  r_address : option string;
  r_email : option string;
  r_phone : option string;
  r_website : option string;
  r_law_school : option string;
  r_graduation_year : option string;
  created_at : string;
  updated_at : string
}.

Record practice_area_row : Type := mk_practice_area_row {
  pa_id : Z;
  attorney_id : Z;
  practice_area : string;
  is_primary : bool
}.

Record connection : Type := mk_connection {
  attorneys : list attorney_row;
  attorneys_seq : Z;
  practice_area_table : list practice_area_row;
  practice_areas_seq : Z;
  last_insert_rowid : Z
}.

(** A connection to a database that [init_database] has just created. *)
Definition init_database : connection := mk_connection [] 0 [] 0 0.

(** The exceptions the body of [insert_attorney] can raise, and the ones
    outside the [Exception] class, which [except Exception] lets through. *)
Inductive exn : Type :=
| IntegrityError (msg : string)
| AttributeError (msg : string)
| KeyboardInterrupt.

Definition is_Exception (e : exn) : bool :=
  match e with
  | IntegrityError _ | AttributeError _ => true
  | KeyboardInterrupt => false
  end.

Inductive result (A : Type) : Type :=
| Return (a : A)
| Raise (e : exn).
Arguments Return {A} a.
Arguments Raise {A} e.

(** The rowid an [AUTOINCREMENT] table gives a new row: one more than the
    largest rowid in the table or ever given out.  Rowids are not bounded
    here; SQLite's end at [max_rowid], where an insertion fails. *)
Definition next_rowid (ids : list Z) (seq : Z) : Z :=
  (fold_left Z.max ids seq + 1)%Z.

(** The largest rowid of SQLite, 2^63 - 1. *)
Definition max_rowid : Z := 9223372036854775807%Z.

Definition opt_eqb (a b : option string) : bool :=
  match a, b with
  | Some x, Some y => String.eqb x y
  | None, None => true
  | _, _ => false
  end.

(** [UNIQUE(bar_number, state)]: a stored row conflicts with the proposed
    values when both bar numbers are non-NULL and equal and the states are
    equal (NULLs are distinct from each other). *)
Definition conflicts (bar : option string) (st : string) (r : attorney_row)
  : bool :=
  match bar, r_bar_number r with
  | Some b, Some b' => String.eqb b b' && String.eqb st (r_state r)
  | _, _ => false
  end.

(** [DO UPDATE SET ...]: the eleven listed columns from the proposed row,
    and [updated_at]. *)
Definition do_update (now : string) (d : attorney) (fn : string)
    (r : attorney_row) : attorney_row :=
  {| id := id r;
     r_bar_number := r_bar_number r;
     r_state := r_state r;
     r_first_name := first_name d;
     r_last_name := last_name d;
     r_full_name := fn;
     r_status := status d;
     r_admission_date := r_admission_date r;
     r_firm_name := firm_name d;
     r_city := city d;
     r_county := county d;
     r_address := address d;
     r_email := email d;
     r_phone := phone d;
     r_website := website d;
     r_law_school := r_law_school r;
     r_graduation_year := r_graduation_year r;
     created_at := created_at r;
     updated_at := now |}.

Definition new_row (now : string) (rowid : Z) (d : attorney)
    (st fn : string) : attorney_row :=
  {| id := rowid;
     r_bar_number := bar_number d;
     r_state := st;
     r_first_name := first_name d;
     r_last_name := last_name d;
     r_full_name := fn;
     r_status := status d;
     r_admission_date := admission_date d;
     r_firm_name := firm_name d;
     r_city := city d;
     r_county := county d;
     r_address := address d;
     r_email := email d;
     r_phone := phone d;
     r_website := website d;
     r_law_school := law_school d;
     r_graduation_year := graduation_year d;
     created_at := now;
     updated_at := now |}.

(** The statement of lines 116-152:
    [INSERT INTO attorneys ... ON CONFLICT(bar_number, state) DO UPDATE ...].
    The NOT NULL columns are checked first; a row that conflicts on the key
    is updated in place (under the UNIQUE constraint there is at most one).
    The statement takes a rowid from the sequence of the table before it
    finds the conflict, so the sequence moves on both paths; only a real
    insertion stores a row under that rowid and moves [last_insert_rowid]. *)
Definition execute_upsert (now : string) (d : attorney) (c : connection)
  : connection * result unit :=
  match state d, full_name d with
  | None, _ =>
      (c, Raise (IntegrityError "NOT NULL constraint failed: attorneys.state"))
  | Some _, None =>
      (c, Raise (IntegrityError
                   "NOT NULL constraint failed: attorneys.full_name"))
  | Some st, Some fn =>
      let rowid := next_rowid (map id (attorneys c)) (attorneys_seq c) in
      if existsb (conflicts (bar_number d) st) (attorneys c) then
        (mk_connection
           (map (fun r => if conflicts (bar_number d) st r
                          then do_update now d fn r else r) (attorneys c))
           rowid (practice_area_table c) (practice_areas_seq c)
           (last_insert_rowid c),
         Return tt)
      else
        (mk_connection
           (attorneys c ++ [new_row now rowid d st fn])
           rowid (practice_area_table c) (practice_areas_seq c) rowid,
         Return tt)
  end.

(** [UNIQUE(attorney_id, practice_area)] *)
Definition same_area (aid : Z) (area : string) (r : practice_area_row)
  : bool :=
  (attorney_id r =? aid)%Z && String.eqb (practice_area r) area.

(** The statement of lines 160-163:
    [INSERT OR IGNORE INTO practice_areas (attorney_id, practice_area, is_primary)].
    A statement that is ignored stores nothing and leaves
    [last_insert_rowid], but has taken a rowid from the sequence. *)
Definition execute_insert_or_ignore (aid : Z) (area : string)
    (primary : bool) (c : connection) : connection :=
  let rowid := next_rowid (map pa_id (practice_area_table c))
                          (practice_areas_seq c) in
  if existsb (same_area aid area) (practice_area_table c) then
    mk_connection (attorneys c) (attorneys_seq c) (practice_area_table c)
      rowid (last_insert_rowid c)
  else
    mk_connection (attorneys c) (attorneys_seq c)
      (practice_area_table c ++ [mk_practice_area_row rowid aid area primary])
      rowid rowid.

(** [if area:] *)
Definition area_truthy (v : pyval) : bool :=
  match v with
  | PyNone => false
  | PyStr s => negb (String.eqb s "")
  | PyInt z => negb (z =? 0)%Z
  end.

(** The loop of lines 158-163, from index [i] on. *)
Fixpoint insert_practice_areas (aid : Z) (i : nat) (areas : list pyval)
    (c : connection) : connection * result unit :=
  match areas with
  | [] => (c, Return tt)
  | area :: rest =>
      if area_truthy area then
        match area with
        | PyStr s =>
            insert_practice_areas aid (S i) rest
              (execute_insert_or_ignore aid (strip s) (i =? 0) c)
        | _ => (c, Raise (AttributeError "object has no attribute 'strip'"))
        end
      else insert_practice_areas aid (S i) rest c
  end.

(** The body of the [try] statement (lines 116-165). *)
Definition insert_attorney_body (now : string) (c : connection)
    (d : attorney) : connection * result Z :=
  match execute_upsert now d c with
  | (c1, Raise e) => (c1, Raise e)
  | (c1, Return _) =>
      let attorney_id := last_insert_rowid c1 in
      match insert_practice_areas attorney_id 0 (practice_areas d) c1 with
      | (c2, Raise e) => (c2, Raise e)
      | (c2, Return _) => (c2, Return attorney_id)
      end
  end.

(** [insert_attorney]: the body under [except Exception], whose handler
    prints and returns [None]. *)
Definition insert_attorney (now : string) (c : connection) (d : attorney)
  : connection * result (option Z) :=
  match insert_attorney_body now c d with
  | (c', Return attorney_id) => (c', Return (Some attorney_id))
  | (c', Raise e) =>
      if is_Exception e then (c', Return None) else (c', Raise e)
  end.

(** ** The runner ([run_scrapers.py]) *)

Definition SCRAPERS : list (string * (string * string * string)) :=
  [("CA", ("California", "scrapers.california_bar", "CaliforniaBarScraper"));
   ("NY", ("New York", "scrapers.new_york_bar", "NewYorkBarScraper"));
   ("TX", ("Texas", "scrapers.texas_bar", "TexasBarScraper"));
   ("FL", ("Florida", "scrapers.florida_bar", "FloridaBarScraper"));
   ("IL", ("Illinois", "scrapers.illinois_bar", "IllinoisBarScraper"))].

(** [SCRAPERS[key]], and [key in SCRAPERS] as its being defined. *)
Fixpoint lookup {V : Type} (key : string) (m : list (string * V)) : option V :=
  match m with
  | [] => None
  | (k, v) :: m' => if String.eqb key k then Some v else lookup key m'
  end.

(** What a call of [run_scraper] does besides returning: lines printed,
    modules imported, scraper objects built, scrapers run. *)
Inductive event : Type :=
| Print (line : string)
| Import (module_name class_name : string)
| Construct (class_name db_path : string)
| Run (class_name : string).

(** U+274C, which opens the error lines. *)
Definition cross_mark : string :=
  String (ascii_of_nat 226) (String (ascii_of_nat 157)
    (String (ascii_of_nat 140) "")).

(** How a call into code outside the runner ends: normally, with an
    [ImportError], or with another exception of class [Exception]. *)
Inductive call_outcome : Type :=
| Returned
| ImportErrorRaised (msg : string)
| OtherRaised (msg : string).

Section Runner.

(** Everything outside the runner that a scraper can touch (the network,
    the persistent store with its scrape log), the dynamic import, and the
    construction and run of a scraper class. *)
Variable World : Type.
Variable import_scraper : string -> string -> World -> World * call_outcome.
Variable construct_scraper : string -> string -> World -> World * call_outcome.
Variable run_scraper_object : string -> World -> World * call_outcome.

(** The two [except] clauses (lines 57-64): the line printed for a call that
    raised. *)
Definition handler_line (state_name : string) (o : call_outcome)
  : list event :=
  match o with
  | Returned => []
  | ImportErrorRaised msg =>
      [Print (cross_mark ++ " Could not import scraper for "
              ++ state_name ++ ": " ++ msg)%string]
  | OtherRaised msg =>
      [Print (cross_mark ++ " Error running " ++ state_name
              ++ " scraper: " ++ msg)%string]
  end.

Definition raised (o : call_outcome) : bool :=
  match o with Returned => false | _ => true end.

Definition run_scraper (state_code db_path : string) (w : World)
  : World * list event * bool :=
  match lookup state_code SCRAPERS with
  | None =>
      (w,
       [Print (cross_mark ++ " Unknown state: " ++ state_code)%string;
        Print ("   Available states: "
               ++ String.concat ", " (map fst SCRAPERS))%string],
       false)
  | Some (state_name, module_name, class_name) =>
      let '(w1, o1) := import_scraper module_name class_name w in
      let ev1 := [Import module_name class_name] in
      if raised o1 then (w1, ev1 ++ handler_line state_name o1, false)
      else
        let '(w2, o2) := construct_scraper class_name db_path w1 in
        let ev2 := ev1 ++ [Construct class_name db_path] in
        if raised o2 then (w2, ev2 ++ handler_line state_name o2, false)
        else
          let '(w3, o3) := run_scraper_object class_name w2 in
          let ev3 := ev2 ++ [Run class_name] in
          if raised o3 then (w3, ev3 ++ handler_line state_name o3, false)
          else (w3, ev3, true)
  end.

End Runner.

(** ** The rest of the runner: [run_all_scrapers] and [main] *)

(** [s.upper()] *)
Fixpoint upper (s : string) : string :=
  match s with
  | EmptyString => EmptyString
  | String c s' => String (upper_char c) (upper s')
  end.

(** [s.split(sep)] for a one-character separator: the pieces between the
    separators, empty ones included; [cur] is the piece being read. *)
Fixpoint split_on (sep : ascii) (cur : string) (s : string) : list string :=
  match s with
  | EmptyString => [cur]
  | String c s' =>
      if Ascii.eqb c sep then cur :: split_on sep "" s'
      else split_on sep (cur ++ String c "")%string s'
  end.

Definition split_comma (s : string) : list string := split_on "," "" s.

(** U+2705, the mark of a scraper that completed. *)
Definition check_mark : string :=
  String (ascii_of_nat 226) (String (ascii_of_nat 156)
    (String (ascii_of_nat 133) "")).

Definition newline : string := String (ascii_of_nat 10) "".

(** ["=" * 60] *)
Definition rule60 : string := String.concat "" (repeat "=" 60).

(** What [run_all_scrapers] does: the events of the scrapers it runs and of
    its own printing, and its final call of [show_stats]. *)
Inductive runner_call : Type :=
| ScraperEvent (e : event)
| CallShowStats (db_path : string).

(** [results[key] = value] on a dictionary kept in insertion order. *)
Fixpoint dict_set {V : Type} (m : list (string * V)) (key : string) (v : V)
  : list (string * V) :=
  match m with
  | [] => [(key, v)]
  | (k, v') :: m' =>
      if String.eqb key k then (k, v) :: m' else (k, v') :: dict_set m' key v
  end.

Section RunAll.

Variable World : Type.
Variable import_scraper : string -> string -> World -> World * call_outcome.
Variable construct_scraper : string -> string -> World -> World * call_outcome.
Variable run_scraper_object : string -> World -> World * call_outcome.

(** The variables of the loop of lines 76-78: the world, the events so far
    and the dictionary [results]. *)
Definition run_all_vars : Type :=
  (World * list event * list (string * bool))%type.

(** One pass of the loop of lines 76-78. *)
Definition run_all_step (db_path : string) (vars : run_all_vars)
    (state_code : string) : run_all_vars :=
  let '(w, evs, results) := vars in
  let '(w', evs', success) :=
    run_scraper World import_scraper construct_scraper run_scraper_object
      state_code db_path w in
  (w', evs ++ evs', dict_set results state_code success).

Definition run_all_loop (db_path : string) (w : World) : run_all_vars :=
  fold_left (run_all_step db_path) (map fst SCRAPERS) (w, [], []).

(** The line the summary prints for one state (lines 84-86). *)
Definition summary_line (entry : string * bool) : event :=
  let '(st, success) := entry in
  Print ("  " ++ st ++ ": "
         ++ (if success then check_mark ++ " Complete"
             else cross_mark ++ " Failed"))%string.

(** [run_all_scrapers]: the header, the scrapers in the order of the
    registry, the summary, and the call of [show_stats]. *)
Definition run_all_scrapers (db_path : string) (w : World)
  : World * list runner_call :=
  let header :=
    [Print (newline ++ rule60)%string;
     Print "  Attorney Database Scraper";
     Print "  Running all state scrapers...";
     Print rule60] in
  let '(w', evs, results) := run_all_loop db_path w in
  let summary :=
    [Print (newline ++ rule60)%string; Print "  SCRAPING SUMMARY";
     Print rule60]
    ++ map summary_line results
    ++ [Print (rule60 ++ newline)%string] in
  (w', map ScraperEvent (header ++ evs ++ summary) ++ [CallShowStats db_path]).

End RunAll.

(** The namespace [parse_args] returns: each option as given on the command
    line, [None] for an option that was not given. *)
Record arguments : Type := mk_arguments {
  arg_state : option string;
  arg_stats : bool;
  arg_export : option string;
  arg_search : option string;
  arg_practice_area : option string;
  arg_city : option string;
  arg_db : string;
  arg_init : bool
}.

(** The calls [main] makes after parsing its arguments, in order.  None of
    the results is used by [main], and [run_scraper] catches what its
    scraper raises, so the calls depend on the arguments only, and on
    whether the database file exists. *)
Inductive main_call : Type :=
| CallInitDatabase (db_path : string)
| CallPrint (line : string)
| CallStats (db_path : string)
| CallExportToCsv (db_path output_file : string)
                  (filters : list (string * string))
| CallDoSearch (query db_path : string) (filters : list (string * string))
| CallRunScraper (state_code db_path : string)
| CallRunAllScrapers (db_path : string).

(** The value of an option of the command line when it is truthy. *)
Definition given (o : option string) : option string :=
  match o with
  | Some v => if truthy o then Some v else None
  | None => None
  end.

(** The dictionary [filters] of lines 193-199 and 206-212. *)
Definition main_filters (a : arguments) : list (string * string) :=
  (match given (arg_state a) with
   | Some st => [("state", hd "" (split_comma st))]
   | None => []
   end)
  ++ (match given (arg_practice_area a) with
      | Some pa => [("practice_area", pa)]
      | None => []
      end)
  ++ (match given (arg_city a) with
      | Some cty => [("city", cty)]
      | None => []
      end).

(** Lines 218-223: the scrapers to run. *)
Definition main_run (a : arguments) : list main_call :=
  match given (arg_state a) with
  | Some st =>
      map (fun piece => CallRunScraper (upper (strip piece)) (arg_db a))
          (split_comma st)
  | None => [CallRunAllScrapers (arg_db a)]
  end.

(** [main], from line 179 on; [db_exists] is [os.path.exists(args.db)]. *)
Definition main (a : arguments) (db_exists : bool) : list main_call :=
  let init :=
    if arg_init a || negb db_exists then [CallInitDatabase (arg_db a)]
    else [] in
  if arg_init a then
    init ++ [CallPrint (check_mark ++ " Database initialized")%string]
  else if arg_stats a then init ++ [CallStats (arg_db a)]
  else
    match given (arg_export a) with
    | Some file => init ++ [CallExportToCsv (arg_db a) file (main_filters a)]
    | None =>
        match given (arg_search a) with
        | Some query =>
            init ++ [CallDoSearch query (arg_db a) (main_filters a)]
        | None => init ++ main_run a
        end
    end.

(** Whether a call of [main] runs a scraper. *)
Definition runs_scraper (call : main_call) : bool :=
  match call with
  | CallRunScraper _ _ | CallRunAllScrapers _ => true
  | _ => false
  end.

(** The modules and classes a trace imports, in order. *)
Definition imports (evs : list event) : list (string * string) :=
  flat_map (fun e => match e with
                     | Import m c => [(m, c)]
                     | _ => []
                     end) evs.

(** The events of the scrapers in what [run_all_scrapers] does. *)
Definition scraper_events (calls : list runner_call) : list event :=
  flat_map (fun c => match c with
                     | ScraperEvent e => [e]
                     | CallShowStats _ => []
                     end) calls.

(** ** Reading the database: [search_attorneys] *)

(** The bytes from 128 to 191 continue a character of a UTF-8 text. *)
Definition is_continuation (c : ascii) : bool :=
  (128 <=? nat_of_ascii c) && (nat_of_ascii c <=? 191).

Fixpoint skip_continuation (s : string) : string :=
  match s with
  | EmptyString => EmptyString
  | String c s' => if is_continuation c then skip_continuation s' else s
  end.

(** What is left of [s] behind its first character, when [s] is not empty
    and starts where a character starts. *)
Definition skip_char (s : string) : option string :=
  match s with
  | EmptyString => None
  | String c s' =>
      if is_continuation c then None else Some (skip_continuation s')
  end.

(** The matching of [text LIKE pattern]: [%] stands for any run of
    characters, [_] for any one character, and ASCII letters match whatever
    their case. *)
Fixpoint like (pattern text : string) : bool :=
  match pattern with
  | EmptyString =>
      match text with EmptyString => true | String _ _ => false end
  | String p pattern' =>
      if Ascii.eqb p "%" then
        (fix rest (t : string) : bool :=
           like pattern' t
           || match t with
              | EmptyString => false
              | String _ t' => rest t'
              end) text
      else if Ascii.eqb p "_" then
        match skip_char text with
        | Some text' => like pattern' text'
        | None => false
        end
      else
        match text with
        | EmptyString => false
        | String ch text' =>
            Ascii.eqb (lower_char p) (lower_char ch) && like pattern' text'
        end
  end.

(** [s] up to its first character NUL. *)
Fixpoint until_nul (s : string) : string :=
  match s with
  | EmptyString => EmptyString
  | String c s' =>
      if Ascii.eqb c "000" then EmptyString else String c (until_nul s')
  end.

(** [text LIKE pattern] in SQLite, which reads a pattern and a text up to
    their first character NUL. *)
Definition sqlite_like (pattern text : string) : bool :=
  like (until_nul pattern) (until_nul text).

(** [column LIKE pattern] for a column that may be NULL (a NULL matches
    nothing). *)
Definition like_column (pattern : string) (col : option string) : bool :=
  match col with
  | Some text => sqlite_like pattern text
  | None => false
  end.

(** [f"%{value}%"] *)
Definition contains_pattern (value : string) : string :=
  ("%" ++ value ++ "%")%string.

(** The keyword arguments [**filters] of [search_attorneys], each [None]
    when it is not passed. *)
Record search_filters : Type := mk_search_filters {
  f_state : option string;
  f_practice_area : option string;
  f_city : option string;
  f_firm : option string;
  f_status : option string;
  f_name : option string;
  f_limit : option Z
}.

(** The rows [practice_areas] contributes to the LEFT JOIN for one
    attorney: its practice areas, or one all-NULL row when it has none. *)
Definition joined_areas (c : connection) (a : attorney_row)
  : list (option practice_area_row) :=
  match filter (fun p => (attorney_id p =? id a)%Z) (practice_area_table c) with
  | [] => [None]
  | ps => map Some ps
  end.

(** [attorneys a LEFT JOIN practice_areas pa ON a.id = pa.attorney_id] *)
Definition left_join (c : connection)
  : list (attorney_row * option practice_area_row) :=
  flat_map (fun a => map (fun pa => (a, pa)) (joined_areas c a)) (attorneys c).

(** The WHERE clause that lines 267-289 build: one condition for every
    filter that is passed and truthy. *)
Definition where_clause (f : search_filters) (a : attorney_row)
    (pa : option practice_area_row) : bool :=
  match given (f_state f) with
  | Some v => String.eqb (r_state a) v
  | None => true
  end
  && match given (f_practice_area f) with
     | Some v => like_column (contains_pattern v) (option_map practice_area pa)
     | None => true
     end
  && match given (f_city f) with
     | Some v => like_column (contains_pattern v) (r_city a)
     | None => true
     end
  && match given (f_firm f) with
     | Some v => like_column (contains_pattern v) (r_firm_name a)
     | None => true
     end
  && match given (f_status f) with
     | Some v => opt_eqb (r_status a) (Some v)
     | None => true
     end
  && match given (f_name f) with
     | Some v => sqlite_like (contains_pattern v) (r_full_name a)
                 || like_column (contains_pattern v) (r_last_name a)
     | None => true
     end.

Definition attorney_row_eq_dec (a b : attorney_row) : {a = b} + {a <> b}.
Proof.
  decide equality;
    try apply string_dec; try apply Z.eq_dec;
    decide equality; apply string_dec.
Defined.

(** The order of a column that may be NULL: NULL first, then the texts by
    their bytes. *)
Definition null_first_leb (a b : option string) : bool :=
  match a, b with
  | None, _ => true
  | Some _, None => false
  | Some x, Some y => String.leb x y
  end.

(** [ORDER BY a.last_name, a.first_name] *)
Definition name_leb (a b : attorney_row) : bool :=
  if opt_eqb (r_last_name a) (r_last_name b)
  then null_first_leb (r_first_name a) (r_first_name b)
  else null_first_leb (r_last_name a) (r_last_name b).

Fixpoint insert_by_name (x : attorney_row) (l : list attorney_row)
  : list attorney_row :=
  match l with
  | [] => [x]
  | y :: l' => if name_leb y x then y :: insert_by_name x l' else x :: l
  end.

(** The rows in the order of the ORDER BY clause; rows with equal names
    keep the order they come in (SQLite promises no order among them). *)
Definition order_by_name (l : list attorney_row) : list attorney_row :=
  fold_left (fun sorted x => insert_by_name x sorted) l [].

(** [LIMIT n], added when [filters.get('limit')] is truthy; a negative
    limit is no limit. *)
Definition apply_limit {A : Type} (limit : option Z) (rows : list A)
  : list A :=
  match limit with
  | Some n =>
      if (n =? 0)%Z then rows
      else if (n <? 0)%Z then rows
      else firstn (Z.to_nat n) rows
  | None => rows
  end.

(** [search_attorneys], on the connection to the database at [db_path]. *)
Definition search_attorneys (c : connection) (f : search_filters)
  : list attorney_row :=
  apply_limit (f_limit f)
    (order_by_name
       (nodup attorney_row_eq_dec
          (map fst (filter (fun j => where_clause f (fst j) (snd j))
                           (left_join c))))).

(** Whether an attorney has a row in the join that passes the WHERE
    clause. *)
Definition search_matches (c : connection) (f : search_filters)
    (a : attorney_row) : bool :=
  existsb (where_clause f a) (joined_areas c a).


(** ** Reading the database: [get_stats] *)

Fixpoint insert_by_key {A : Type} (leb : A -> A -> bool) (x : A)
    (l : list A) : list A :=
  match l with
  | [] => [x]
  | y :: l' => if leb x y then x :: l else y :: insert_by_key leb x l'
  end.

Definition order_by_key {A : Type} (leb : A -> A -> bool) (l : list A)
  : list A :=
  fold_right (insert_by_key leb) [] l.

(** [SELECT key, COUNT( * ) ... GROUP BY key]: every value that occurs, with
    the number of its occurrences.  SQL promises no order; SQLite forms the
    groups over the index of the column and so returns them in the order
    [leb] of the keys (NULL first, then the texts by their bytes). *)
Definition group_count {A : Type} (dec : forall x y : A, {x = y} + {x <> y})
    (leb : A -> A -> bool) (values : list A) : list (A * nat) :=
  map (fun k => (k, count_occ dec values k))
      (order_by_key leb (nodup dec values)).

Fixpoint insert_by_count {A : Type} (x : A * nat) (l : list (A * nat))
  : list (A * nat) :=
  match l with
  | [] => [x]
  | y :: l' => if snd x <=? snd y then y :: insert_by_count x l' else x :: l
  end.

(** [ORDER BY count DESC]; groups of equal count keep the order they come
    in (SQL promises no order among them). *)
Definition order_by_count_desc {A : Type} (l : list (A * nat))
  : list (A * nat) :=
  fold_left (fun sorted x => insert_by_count x sorted) l [].

(** [{key(row): row['count'] for row in rows}]: a later row with the key of
    an earlier one replaces its count. *)
Definition dict_of {A : Type} (key : A -> string) (rows : list (A * nat))
  : list (string * nat) :=
  fold_left (fun d row => dict_set d (key (fst row)) (snd row)) rows [].

(** [row['status'] or 'Unknown'] *)
Definition status_key (st : option string) : string :=
  match given st with
  | Some v => v
  | None => "Unknown"
  end.

Definition option_string_dec (a b : option string) : {a = b} + {a <> b}.
Proof. decide equality; apply string_dec. Defined.

(** The firm names that pass
    [WHERE firm_name IS NOT NULL AND firm_name != '']. *)
Definition firm_names (rows : list attorney_row) : list string :=
  flat_map (fun r => match given (r_firm_name r) with
                     | Some v => [v]
                     | None => []
                     end) rows.

(** The dictionary [get_stats] returns. *)
Record stats : Type := mk_stats {
  total_attorneys : nat;
  by_state : list (string * nat);
  by_status : list (string * nat);
  top_practice_areas : list (string * nat);
  top_firms : list (string * nat)
}.

(** [get_stats], on the connection to the database at [db_path]. *)
Definition get_stats (c : connection) : stats :=
  {| total_attorneys := length (attorneys c);
     by_state :=
       dict_of (fun k => k)
         (order_by_count_desc
            (group_count string_dec String.leb
               (map r_state (attorneys c))));
     by_status :=
       dict_of status_key
         (group_count option_string_dec null_first_leb
            (map r_status (attorneys c)));
     top_practice_areas :=
       dict_of (fun k => k)
         (firstn 20
            (order_by_count_desc
               (group_count string_dec String.leb
                  (map practice_area (practice_area_table c)))));
     top_firms :=
       dict_of (fun k => k)
         (firstn 20
            (order_by_count_desc
               (group_count string_dec String.leb
                  (firm_names (attorneys c))))) |}.

(** ** The searches of [TexasBarScraper.scrape] *)

Definition API_URL : string :=
  "https://www.texasbar.com/AM/CustomSource/MemberDirectory/Search.cfm".

Definition scrape_cities : list string :=
  ["Houston"; "Dallas"; "Austin"; "San Antonio"; "Fort Worth";
   "El Paso"; "Arlington"; "Plano"; "Corpus Christi"; "Lubbock";
   "Irving"; "Garland"; "Frisco"; "McKinney"; "Amarillo";
   "Grand Prairie"; "Brownsville"; "Killeen"; "Pasadena"; "McAllen"].

(** The characters of ['ABCDEFGHIJKLMNOPQRSTUVWXYZ']. *)
Definition scrape_letters : list string :=
  ["A"; "B"; "C"; "D"; "E"; "F"; "G"; "H"; "I"; "J"; "K"; "L"; "M";
   "N"; "O"; "P"; "Q"; "R"; "S"; "T"; "U"; "V"; "W"; "X"; "Y"; "Z"].

(** The form of [search_by_city] (lines 55-62). *)
Definition city_form (city_name : string) : list (string * string) :=
  [("City", city_name); ("State", "TX"); ("LastName", "");
   ("FirstName", ""); ("BarNumber", ""); ("PracticeArea", "")].

(** The form of [search_by_letter] (lines 78-83). *)
Definition letter_form (letter : string) : list (string * string) :=
  [("LastName", letter); ("FirstName", ""); ("City", "");
   ("BarNumber", "")].

Section Scrape.

Context {base : BaseBarScraper}.

(** [BaseBarScraper.post_page]: the parsed page the site answers a form
    with, or [None] when the request fails. *)
Variable post_page : string -> list (string * string) -> option node.

(** The scraper together with the forms it has posted, in order. *)
Definition scrape_state : Type :=
  (scraper * list (string * list (string * string)))%type.

(** The body shared by [search_by_city] and [search_by_letter]: post the
    form; without a response return; otherwise parse the results.  A
    traversal that uses up the nesting budget ends in a [RecursionError],
    which the handler (lines 70-72, 91-93) counts in [errors]. *)
Definition search_with (fuel : nat) (form : list (string * string))
    (s : scrape_state) : scrape_state :=
  let '(st, posts) := s in
  let posts' := posts ++ [(API_URL, form)] in
  match post_page API_URL form with
  | None => (st, posts')
  | Some page =>
      match parse_results fuel (page, []) st with
      | (st', Unfinished) =>
          (mk_scraper (store st') (found st') (S (errors st')) (fetched st'),
           posts')
      | (st', _) => (st', posts')
      end
  end.

Definition search_by_city (fuel : nat) (s : scrape_state)
    (city_name : string) : scrape_state :=
  search_with fuel (city_form city_name) s.

Definition search_by_letter (fuel : nat) (s : scrape_state)
    (letter : string) : scrape_state :=
  search_with fuel (letter_form letter) s.

(** [scrape]: every city, then every letter (the delays and the printing
    left out). *)
Definition scrape (fuel : nat) (s : scrape_state) : scrape_state :=
  fold_left (search_by_letter fuel) scrape_letters
    (fold_left (search_by_city fuel) scrape_cities s).

End Scrape.

(** ** The constraints of the schema *)

(** [UNIQUE(bar_number, state)] over the rows of [attorneys]. *)
Definition unique_keys (rows : list attorney_row) : Prop :=
  forall bar st, length (filter (conflicts bar st) rows) <= 1.

(** [UNIQUE(attorney_id, practice_area)] over the rows of [practice_areas]. *)
Definition unique_areas (rows : list practice_area_row) : Prop :=
  forall aid area, length (filter (same_area aid area) rows) <= 1.

(** What [init_database] declares for the two tables: the primary keys and
    the two UNIQUE constraints. *)
Definition schema_ok (c : connection) : Prop :=
  NoDup (map id (attorneys c)) /\
  unique_keys (attorneys c) /\
  NoDup (map pa_id (practice_area_table c)) /\
  unique_areas (practice_area_table c).

(** Whether a block parser returned a record. *)
Definition is_some {A : Type} (o : option A) : bool :=
  match o with Some _ => true | None => false end.

(** ** Sample pages, records and runs *)

(** A site on which every fetch fails. *)
Definition no_site (url : string) : option node := None.

Definition smith_link : node :=
  Tag "a" [] (Some "/member?BarNumber=12345678")
      [NavigableString " John   Q Smith "].

(** A table row of a name cell and a city cell. *)
Definition san_antonio_row : element :=
  (Tag "tr" [] None
     [Tag "td" [] None [smith_link];
      Tag "td" [] None [NavigableString "san antonio"]], []).


(** The same row with a city that is not on the list. *)
Definition waco_row : element :=
  (Tag "tr" [] None
     [Tag "td" [] None [smith_link];
      Tag "td" [] None [NavigableString "Waco"]], []).

(** A row whose only cell holds the name. *)
Definition lone_cell_row : element :=
  (Tag "tr" [] None [Tag "td" [] None [smith_link]], []).

(** A result block that holds a name and nothing else. *)
Definition bare_div : element :=
  (Tag "div" ["attorney-result"] None
     [Tag "h3" [] None [NavigableString "Jane Doe"]], []).

(** A result block without a heading, link or emphasised text. *)
Definition nameless_div : element :=
  (Tag "div" ["attorney-result"] None
     [Tag "span" [] None [NavigableString "Houston"]], []).

(** The header row of a result table. *)
Definition header_row : node :=
  Tag "tr" [] None [Tag "th" [] None [NavigableString "Name"];
                    Tag "th" [] None [NavigableString "City"]].

Definition results_table : node :=
  Tag "table" ["SearchResults"] None
    [header_row; fst san_antonio_row; fst waco_row].

(** A page with a result block and a result table. *)
Definition page_blocks_and_table : element :=
  (Tag "[document]" [] None [fst bare_div; results_table], []).

(** A page with a result table only. *)
Definition page_table_only : element :=
  (Tag "[document]" [] None [results_table], []).

(** A two-page result set: the first page links to the second, which has
    no next link. *)
Definition second_page : node :=
  Tag "[document]" [] None [fst bare_div].

Definition first_page : node :=
  Tag "[document]" [] None
    [results_table; Tag "a" [] (Some "/results?page=2") [NavigableString "Next"]].

Definition two_page_site (url : string) : option node :=
  if String.eqb url "https://www.texasbar.com/results?page=2"
  then Some second_page else None.

(** A page whose next link leads back to the page itself. *)
Definition loop_page : node :=
  Tag "[document]" [] None
    [fst bare_div;
     Tag "a" [] (Some "/results?page=1") [NavigableString "Next"]].

Definition loop_site (url : string) : option node :=
  if String.eqb url "https://www.texasbar.com/results?page=1"
  then Some loop_page else None.

(** A scraper that has done nothing yet. *)
Definition new_scraper (site : string -> option node)
  : @scraper (spec_scraper site) :=
  @mk_scraper (spec_scraper site) [] 0 0 [].

Definition sample_attorney (bar : option string) (areas : list pyval)
  : attorney :=
  {| bar_number := bar; state := Some "TX";
     first_name := Some "Ann"; last_name := Some "Lee";
     full_name := Some "Ann Lee"; status := Some "Active";
     admission_date := None; firm_name := None; city := Some "Austin";
     county := None; address := None; email := None; phone := None;
     website := None; law_school := None; graduation_year := None;
     practice_areas := areas |}.

Definition ann_lee : attorney :=
  sample_attorney (Some "12345678") [PyStr "Litigation"; PyStr "Family Law"].

Definition ann_lee_blank_first : attorney :=
  sample_attorney (Some "12345678") [PyStr ""; PyStr "Litigation"].

Definition ann_lee_family_law : attorney :=
  sample_attorney (Some "12345678") [PyStr "Family Law"].

Definition no_bar_number : attorney := sample_attorney None [].

(** A world that counts the calls made into it. *)
Definition counting_call (w : nat) : nat * call_outcome := (S w, Returned).

(** A result block with a labelled bar number. *)
Definition doe_div : element :=
  (Tag "div" ["member-listing"] None
     [Tag "h3" [] None [NavigableString "Jane Doe"];
      NavigableString "Bar No.: 87654321, Dallas"], []).

Definition doe_record : attorney :=
  result_dict (Some "87654321") "Jane Doe" (Some "Jane") (Some "Doe")
              "Active" (Some "Dallas") None [].




(** A base class whose [save_attorney] raises for a record without a bar
    number. *)
Definition refusing_scraper : BaseBarScraper :=
  {| Store := list attorney;
     clean_text := clean_text_spec;
     parse_name := parse_name_spec;
     save_attorney := fun a saved =>
                        match bar_number a with
                        | Some _ => (saved ++ [a], true)
                        | None => (saved, false)
                        end;
     get_page := no_site |}.

(** A page whose pager has a relative address without a leading slash. *)
Definition relative_pager_page : element :=
  (Tag "[document]" [] None
     [Tag "a" [] (Some "page2") [NavigableString "Next"]], []).

(** A page whose pager has an address that starts with [http] and is no
    URL. *)
Definition httpdocs_pager_page : element :=
  (Tag "[document]" [] None
     [Tag "a" [] (Some "httpdocs/page2") [NavigableString "next page"]], []).

(** The record of [doe_div] with the state filled in. *)
Definition doe_tx : attorney :=
  {| bar_number := Some "87654321"; state := Some "TX";
     first_name := Some "Jane"; last_name := Some "Doe";
     full_name := Some "Jane Doe"; status := Some "Active";
     admission_date := None; firm_name := None; city := Some "Dallas";
     county := None; address := None; email := None; phone := None;
     website := None; law_school := None; graduation_year := None;
     practice_areas := [] |}.


(** A record without a state. *)
Definition stateless_attorney : attorney :=
  {| bar_number := Some "12345678"; state := None;
     first_name := Some "Ann"; last_name := Some "Lee";
     full_name := Some "Ann Lee"; status := Some "Active";
     admission_date := None; firm_name := None; city := None;
     county := None; address := None; email := None; phone := None;
     website := None; law_school := None; graduation_year := None;
     practice_areas := [PyStr "Litigation"] |}.

(** A page whose result table has a header row only, and a member card. *)
Definition header_only_page : element :=
  (Tag "[document]" [] None
     [Tag "table" ["results"] None
        [Tag "tr" [] None [Tag "th" [] None [NavigableString "Name"]]];
      Tag "div" ["member-card"] None
        [Tag "strong" [] None [NavigableString "Jane Doe"]]], []).

(** A second attorney, of another firm and city. *)
Definition bob_ray : attorney :=
  {| bar_number := Some "22222222"; state := Some "TX";
     first_name := Some "Bob"; last_name := Some "Ray";
     full_name := Some "Bob Ray"; status := None;
     admission_date := None; firm_name := Some "Acme LLP";
     city := Some "Dallas"; county := None; address := None; email := None;
     phone := None; website := None; law_school := None;
     graduation_year := None; practice_areas := [PyStr "Tax"] |}.

(** A database with Ann Lee and Bob Ray. *)
Definition two_attorneys : connection :=
  fst (insert_attorney "t1" (fst (insert_attorney "t0" init_database ann_lee))
         bob_ray).

(** The filter [practice_area="l"] and nothing else. *)
Definition area_filter : search_filters :=
  {| f_state := None; f_practice_area := Some "l"; f_city := None;
     f_firm := None; f_status := None; f_name := None; f_limit := None |}.

(** The command line [--state "tx, ca"]. *)
Definition two_states : arguments :=
  {| arg_state := Some "tx, ca"; arg_stats := false; arg_export := None;
     arg_search := None; arg_practice_area := None; arg_city := None;
     arg_db := "attorneys.db"; arg_init := false |}.

(** A site that answers no form. *)
Definition silent_site (url : string) (form : list (string * string))
  : option node := None.


(** * Properties *)

(** ** Text *)



Lemma lower_char_idem (c : ascii) : lower_char (lower_char c) = lower_char c.
Proof.
  destruct c as [[] [] [] [] [] [] [] []]; vm_compute; reflexivity.
Qed.





(** *** [re.I] on ASCII text *)

Lemma is_ascii_tail (c : ascii) (s : string) :
  is_ascii (String c s) = true ->
  (nat_of_ascii c <? 128) = true /\ is_ascii s = true.
Proof. simpl. intro H. apply andb_true_iff in H. exact H. Qed.

Lemma is_ascii_drop (n : nat) :
  forall s, is_ascii s = true -> is_ascii (drop n s) = true.
Proof.
  induction n as [|n IH]; intros s H; [assumption|].
  destruct s as [|c s]; [reflexivity|].
  simpl. apply IH. apply (is_ascii_tail c s H).
Qed.








(** ** The extraction cascade *)

(** C3.  The strategies run in a fixed order and stop at the first that
    yields a block.  When the selector for result blocks matches, it is the
    only strategy run, and the candidates are its blocks: the elements of
    the page that carry one of the three result classes.  On a page that
    matches only the table pattern (no result block, a matching table, no
    matching div) the candidates are exactly the [tr] elements of the table
    after the first one, the header, which is left out; the same holds
    whenever the table has a row after the first. *)
Theorem extraction_cascade_order (soup : element) :
  (is_empty (select_results soup) = false ->
   find_results soup = (select_results soup, [ResultBlocks]) /\
   fst (find_results soup)
   = filter (fun d => existsb (fun c => has_class c (fst d)) result_classes)
       (descendants soup)) /\
  (forall table header rows,
     is_empty (select_results soup) = true ->
     find_table soup = Some table ->
     find_all (named "tr") table = header :: rows ->
     is_empty rows = false \/ is_empty (find_divs soup) = true ->
     fst (find_results soup) = rows /\
     hd_error (snd (find_results soup)) = Some ResultBlocks /\
     nth_error (snd (find_results soup)) 1 = Some TableRows) /\
  (forall table,
     is_empty (select_results soup) = true ->
     find_table soup = Some table ->
     find_all (named "tr") table = [] ->
     is_empty (find_divs soup) = true ->
     fst (find_results soup) = []).
Proof.
  unfold find_results. split; [|split].
  - intro H. rewrite H. rewrite H. split; reflexivity.
  - intros table header rows Hsel Htab Htr Hrows. rewrite Hsel, Htab.
    unfold rows_after_header. rewrite Htr. simpl.
    destruct rows as [|row rows].
    + destruct Hrows as [Hrows | Hdivs]; [discriminate|].
      simpl. repeat split.
      destruct (find_divs soup); [reflexivity | discriminate].
    + simpl. repeat split.
  - intros table Hsel Htab Htr Hdivs. rewrite Hsel, Htab.
    unfold rows_after_header. rewrite Htr. simpl.
    destruct (find_divs soup); [reflexivity | discriminate].
Qed.

Section BlockProperties.

Context {base : BaseBarScraper}.

(** The row parser returns a record exactly when the row has two cells or
    more and the scan of the cells left a name. *)
Lemma parse_table_row_some (row : element) (a : attorney) :
  parse_table_row row = Some a <->
  (length (find_all (named "td") row) <? 2) = false /\
  exists nm, fst (fst (row_scan row)) = Some nm /\ nm <> "" /\
    a = result_dict (snd (fst (row_scan row))) nm
          (fst (parse_name nm)) (snd (parse_name nm)) "Active"
          (snd (row_scan row)) None [].
Proof.
  unfold parse_table_row.
  destruct (length (find_all (named "td") row) <? 2).
  { split; [discriminate|]. intros [H _]. discriminate. }
  destruct (row_scan row) as [[name bar] cty]. simpl.
  destruct name as [nm|].
  - simpl. destruct (String.eqb_spec nm ""); simpl.
    + split; [discriminate|]. intros (_ & nm' & [= <-] & Hne & _).
      contradiction.
    + destruct (parse_name nm) as [first last] eqn:Ep. simpl. split.
      * intros [= <-]. split; [reflexivity|]. exists nm. rewrite Ep.
        split; [reflexivity | split; [assumption | reflexivity]].
      * intros (_ & nm' & [= <-] & _ & ->). rewrite Ep. reflexivity.
  - split; [discriminate|]. intros (_ & nm' & H & _). discriminate.
Qed.

Lemma parse_div_result_some (div : element) (a : attorney) :
  parse_div_result div = Some a <->
  exists nm, div_name div = Some nm /\ nm <> "" /\
    a = result_dict (search_bar_number (get_text (fst div))) nm
          (fst (parse_name nm)) (snd (parse_name nm)) "Active"
          (option_map title
             (re_search_ignorecase div_cities (get_text (fst div))))
          (div_firm div) [].
Proof.
  unfold parse_div_result.
  destruct (div_name div) as [nm|].
  - simpl. destruct (String.eqb_spec nm ""); simpl.
    + split; [discriminate|]. intros (nm' & [= <-] & Hne & _).
      contradiction.
    + destruct (parse_name nm) as [first last] eqn:Ep. simpl. split.
      * intros [= <-]. exists nm. rewrite Ep.
        split; [reflexivity | split; [assumption | reflexivity]].
      * intros (nm' & [= <-] & _ & ->). rewrite Ep. reflexivity.
  - split; [discriminate|]. intros (nm' & H & _). discriminate.
Qed.

Lemma truthy_false (o : option string) :
  truthy o = false <-> o = None \/ o = Some "".
Proof.
  destruct o as [s|]; simpl.
  - destruct (String.eqb_spec s "") as [-> | Hne]; simpl; split; intro H.
    + right. reflexivity.
    + reflexivity.
    + discriminate.
    + destruct H as [H | H]; [discriminate|].
      injection H as H. contradiction.
  - split; auto.
Qed.

Lemma unnamed_block_no_record (e : element) :
  truthy (resolved_name e) = false -> parse_result e = None.
Proof.
  intro H. unfold parse_result, resolved_name in *.
  destruct (tag_name (fst e) =? "tr")%string.
  - destruct (parse_table_row e) as [a|] eqn:E; [|reflexivity].
    apply parse_table_row_some in E.
    destruct E as (_ & nm & Hn & Hne & _). rewrite Hn in H. simpl in H.
    apply negb_false_iff, String.eqb_eq in H. contradiction.
  - destruct (parse_div_result e) as [a|] eqn:E; [|reflexivity].
    apply parse_div_result_some in E.
    destruct E as (nm & Hn & Hne & _). rewrite Hn in H. simpl in H.
    apply negb_false_iff, String.eqb_eq in H. contradiction.
Qed.

(** C4.  A block in which no name is resolved (the parser's [name] is
    [None] or empty) yields no record, and the pass of the result loop over
    it changes nothing: nothing is saved and [found] stays as it was. *)
Theorem unnamed_block_rejected (e : element) :
  truthy (resolved_name e) = false ->
  parse_result e = None /\
  forall st : scraper,
    process_result st e = st /\
    store (process_result st e) = store st /\
    found (process_result st e) = found st.
Proof.
  intro H. pose proof (unnamed_block_no_record e H) as Hnone.
  split; [assumption|].
  intro st. unfold process_result. rewrite Hnone. repeat split.
Qed.

(** Over a whole page: [found] grows by at most the number of blocks with a
    resolved name, and a page without any such block leaves the scraper as
    it was. *)
Lemma found_bounded_by_named_blocks (results : list element) :
  forall st : scraper,
    found (fold_left process_result results st)
    <= found st
       + length (filter (fun e => truthy (resolved_name e)) results).
Proof.
  induction results as [|e results IH]; intro st; simpl; [lia|].
  specialize (IH (process_result st e)).
  destruct (truthy (resolved_name e)) eqn:E; simpl.
  - assert (found (process_result st e) <= S (found st)).
    { unfold process_result.
      destruct (parse_result e); [|lia].
      destruct (save_attorney _ _) as [s' []]; simpl; lia. }
    lia.
  - assert (Hst : process_result st e = st).
    { unfold process_result.
      rewrite (unnamed_block_no_record e E). reflexivity. }
    rewrite Hst in *. assumption.
Qed.

(** *** Where the bar number and the city of a table row come from *)






(** *** What rejects a block *)

(** C5, as the code has it.  A block yields no record exactly when no name
    was resolved in it or, for a table row, when the row has fewer than two
    cells: a block with a resolved name yields a record unless it is a table
    row with fewer than two cells. *)
Theorem block_rejection_criteria (e : element) :
  parse_result e = None <->
  truthy (resolved_name e) = false \/
  (tag_name (fst e) = "tr" /\ length (find_all (named "td") e) < 2).
Proof.
  split.
  - intro Hnone. unfold parse_result, resolved_name in *.
    destruct (String.eqb_spec (tag_name (fst e)) "tr") as [Htr | Htr].
    + destruct (length (find_all (named "td") e) <? 2) eqn:Elen.
      { right. apply Nat.ltb_lt in Elen. auto. }
      left. destruct (fst (fst (row_scan e))) as [nm|] eqn:En; [|reflexivity].
      simpl. destruct (String.eqb_spec nm "") as [Hnm | Hnm]; [reflexivity|].
      exfalso.
      assert (H : parse_table_row e
                  = Some (result_dict (snd (fst (row_scan e))) nm
                            (fst (parse_name nm)) (snd (parse_name nm))
                            "Active" (snd (row_scan e)) None [])).
      { apply parse_table_row_some. split; [assumption|]. exists nm. auto. }
      congruence.
    + left. destruct (div_name e) as [nm|] eqn:En; [|reflexivity].
      simpl. destruct (String.eqb_spec nm "") as [Hnm | Hnm]; [reflexivity|].
      exfalso.
      assert (H : parse_div_result e
                  = Some (result_dict (search_bar_number (get_text (fst e)))
                            nm (fst (parse_name nm)) (snd (parse_name nm))
                            "Active"
                            (option_map title
                               (re_search_ignorecase div_cities (get_text (fst e))))
                            (div_firm e) [])).
      { apply parse_div_result_some. exists nm. auto. }
      congruence.
  - intros [Hname | [Htr Hlen]].
    + apply unnamed_block_no_record. assumption.
    + unfold parse_result, parse_table_row. rewrite Htr. simpl.
      apply Nat.ltb_lt in Hlen. rewrite Hlen. reflexivity.
Qed.

(** *** Which fields a record carries *)


(** *** The city *)









End BlockProperties.

(** ** Pagination *)

Section PaginationProperties.

Context {base : BaseBarScraper}.

Lemma process_result_fetched (st : scraper) (e : element) :
  fetched (process_result st e) = fetched st.
Proof.
  unfold process_result. destruct (parse_result e); [|reflexivity].
  destruct (save_attorney _ _) as [s' []]; reflexivity.
Qed.

Lemma result_loop_fetched (results : list element) :
  forall st : scraper,
    fetched (fold_left process_result results st) = fetched st.
Proof.
  induction results as [|e results IH]; intro st; simpl; [reflexivity|].
  rewrite IH. apply process_result_fetched.
Qed.

Lemma chain_ends_mono (j : nat) :
  forall k soup, chain_ends j soup = true -> j <= k ->
                 chain_ends k soup = true.
Proof.
  induction j as [|j IH]; intros k soup H Hle.
  - simpl in H. destruct k; simpl; destruct (next_url soup);
      try reflexivity; discriminate.
  - destruct k as [|k]; [lia|]. simpl in *.
    destruct (next_url soup) as [url|]; [|reflexivity].
    destruct (get_page url) as [page|]; [|reflexivity].
    apply IH; [assumption | lia].
Qed.

Lemma next_urls_stable (j : nat) :
  forall k soup, chain_ends j soup = true -> j <= k ->
                 next_urls k soup = next_urls j soup.
Proof.
  induction j as [|j IH]; intros k soup H Hle.
  - simpl in H. destruct k; simpl; destruct (next_url soup);
      try reflexivity; discriminate.
  - destruct k as [|k]; [lia|]. simpl in *.
    destruct (next_url soup) as [url|]; [|reflexivity].
    destruct (get_page url) as [page|]; [|reflexivity].
    f_equal. apply IH; [assumption | lia].
Qed.

Lemma next_urls_length (k : nat) :
  forall soup, length (next_urls k soup) <= k.
Proof.
  induction k as [|k IH]; intro soup; simpl.
  - destruct (next_url soup); simpl; lia.
  - destruct (next_url soup) as [url|]; simpl; [|lia].
    destruct (get_page url) as [page|]; simpl; [|lia].
    specialize (IH (page, [])). lia.
Qed.

(** The page behind an address of the chain starts a chain that ends
    sooner. *)
Lemma chain_ends_after (k : nat) :
  forall soup u page,
    chain_ends k soup = true -> In u (next_urls k soup) ->
    get_page u = Some page ->
    exists j, j < k /\ chain_ends j (page, []) = true.
Proof.
  induction k as [|k IH]; intros soup u page H Hin Hget; simpl in *.
  - destruct (next_url soup); contradiction.
  - destruct (next_url soup) as [url|]; [|contradiction].
    destruct Hin as [<- | Hin].
    + rewrite Hget in H. exists k. split; [lia | assumption].
    + destruct (get_page url) as [page'|]; [|contradiction].
      destruct (IH (page', []) u page H Hin Hget) as (j & Hj & Hends).
      exists j. split; [lia | assumption].
Qed.

(** On a chain that ends, no address leads back to the page it was found
    after. *)
Lemma no_way_back (k : nat) :
  forall u page,
    get_page u = Some page -> chain_ends k (page, []) = true ->
    ~ In u (next_urls k (page, [])).
Proof.
  induction k as [k IH] using lt_wf_ind. intros u page Hget Hends Hin.
  destruct (chain_ends_after k (page, []) u page Hends Hin Hget)
    as (j & Hj & Hends').
  apply (IH j Hj u page Hget Hends').
  rewrite <- (next_urls_stable j k (page, []) Hends') by lia.
  assumption.
Qed.

Lemma next_urls_NoDup (k : nat) :
  forall soup, chain_ends k soup = true -> NoDup (next_urls k soup).
Proof.
  induction k as [|k IH]; intros soup H; simpl in *.
  - destruct (next_url soup); constructor.
  - destruct (next_url soup) as [url|]; [|constructor].
    destruct (get_page url) as [page|] eqn:Hget.
    + constructor; [|apply IH; assumption].
      apply no_way_back; assumption.
    + constructor; [intros [] | constructor].
Qed.

Lemma parse_results_ends (k : nat) :
  forall soup (st : scraper) fuel,
    chain_ends k soup = true -> k < fuel ->
    (snd (parse_results fuel soup st) = Done \/
     snd (parse_results fuel soup st) = Failed) /\
    fetched (fst (parse_results fuel soup st))
    = fetched st ++ next_urls k soup.
Proof.
  induction k as [|k IH]; intros soup st fuel H Hlt;
    (destruct fuel as [|fuel]; [lia|]); simpl in *.
  - destruct (next_url soup); [discriminate|]. simpl.
    rewrite result_loop_fetched, app_nil_r. auto.
  - destruct (next_url soup) as [url|]; simpl.
    + destruct (get_page url) as [page|]; simpl.
      * match goal with
        | |- context [parse_results fuel (page, []) ?s] =>
            destruct (IH (page, []) s fuel H ltac:(lia)) as [Ho Hf]
        end.
        split; [assumption|]. rewrite Hf. simpl.
        rewrite result_loop_fetched, <- app_assoc. reflexivity.
      * rewrite result_loop_fetched. auto.
    + rewrite result_loop_fetched, app_nil_r. auto.
Qed.

(** C1, as the code has it.  When the chain of next links from a page ends
    after at most [k] fetches (a page without a next link is reached, or a
    fetch fails), [parse_results] returns once its nesting budget exceeds
    [k]: it ends in [Done] or [Failed], it has fetched each address of the
    chain once, in order, and no address twice, so the number of fetches is
    the number of distinct addresses and at most [k].  No set of visited
    addresses is kept: a chain that comes back to an address does not end. *)
Theorem pagination_ends_without_cycle (k : nat) (soup : element)
    (st : scraper) :
  chain_ends k soup = true ->
  forall fuel, k < fuel ->
    (snd (parse_results fuel soup st) = Done \/
     snd (parse_results fuel soup st) = Failed) /\
    fetched (fst (parse_results fuel soup st))
    = fetched st ++ next_urls k soup /\
    NoDup (next_urls k soup) /\
    length (next_urls k soup) <= k.
Proof.
  intros H fuel Hlt.
  destruct (parse_results_ends k soup st fuel H Hlt) as [Ho Hf].
  split; [assumption|]. split; [assumption|]. split.
  - apply next_urls_NoDup. assumption.
  - apply next_urls_length.
Qed.

(** A chain that has not ended after [k] fetches uses up a budget of [k]:
    the traversal is still following links, [k] fetches in. *)
Lemma parse_results_unfinished (k : nat) :
  forall soup (st : scraper),
    chain_ends k soup = false ->
    snd (parse_results k soup st) = Unfinished /\
    length (fetched (fst (parse_results k soup st)))
    = length (fetched st) + k.
Proof.
  induction k as [|k IH]; intros soup st H; simpl in *.
  - split; [reflexivity | lia].
  - destruct (next_url soup) as [url|]; [|discriminate].
    destruct (get_page url) as [page|]; [|discriminate].
    match goal with
    | |- context [parse_results k (page, []) ?s] =>
        destruct (IH (page, []) s H) as [Ho Hf]
    end.
    split; [assumption|]. rewrite Hf. simpl.
    rewrite length_app, result_loop_fetched. simpl. lia.
Qed.

End PaginationProperties.

(** ** The upsert *)

Lemma existsb_filter_nil {A : Type} (f : A -> bool) (l : list A) :
  existsb f l = false -> filter f l = [].
Proof.
  induction l as [|x l IH]; simpl; [reflexivity|].
  intro H. apply orb_false_iff in H. destruct H as [Hx Hl].
  rewrite Hx. apply IH. assumption.
Qed.


Lemma filter_single {A : Type} (f : A -> bool) (l : list A) (x y : A) :
  length (filter f l) <= 1 -> In x l -> In y l ->
  f x = true -> f y = true -> x = y.
Proof.
  intros Hlen Hx Hy Hfx Hfy.
  assert (Hx' : In x (filter f l)) by (apply filter_In; auto).
  assert (Hy' : In y (filter f l)) by (apply filter_In; auto).
  destruct (filter f l) as [|z [|z' l']]; simpl in *.
  - contradiction.
  - destruct Hx' as [<- | []]. destruct Hy' as [<- | []]. reflexivity.
  - lia.
Qed.

(** The rowid given to a new row is larger than every rowid in the table. *)
Lemma fold_max_ge (ids : list Z) :
  forall seq, (seq <= fold_left Z.max ids seq)%Z /\
              forall i, In i ids -> (i <= fold_left Z.max ids seq)%Z.
Proof.
  induction ids as [|x ids IH]; intro seq; simpl.
  - split; [lia | contradiction].
  - destruct (IH (Z.max seq x)) as [H1 H2]. split; [lia|].
    intros i [<- | Hi]; [lia | auto].
Qed.

Lemma next_rowid_fresh (ids : list Z) (seq : Z) :
  ~ In (next_rowid ids seq) ids.
Proof.
  intro H. unfold next_rowid in H.
  apply (proj2 (fold_max_ge ids seq)) in H. lia.
Qed.

Lemma conflicts_do_update (now : string) (d : attorney) (fn : string)
    (bar : option string) (st : string) (r : attorney_row) :
  conflicts bar st (do_update now d fn r) = conflicts bar st r.
Proof. reflexivity. Qed.

Lemma filter_conflicts_update (now : string) (d : attorney) (fn : string)
    (bar bar' : option string) (st st' : string) (rows : list attorney_row) :
  filter (conflicts bar st)
    (map (fun r => if conflicts bar' st' r then do_update now d fn r else r)
         rows)
  = map (fun r => if conflicts bar' st' r then do_update now d fn r else r)
      (filter (conflicts bar st) rows).
Proof.
  induction rows as [|r rows IH]; simpl; [reflexivity|].
  destruct (conflicts bar' st' r) eqn:E1.
  - rewrite conflicts_do_update.
    destruct (conflicts bar st r); simpl; rewrite ?E1, IH; reflexivity.
  - destruct (conflicts bar st r); simpl; rewrite ?E1, IH; reflexivity.
Qed.

(** What the upsert statement does to the table, case by case. *)
Lemma execute_upsert_spec (now : string) (d : attorney) (c : connection)
    (st fn : string) :
  state d = Some st -> full_name d = Some fn ->
  snd (execute_upsert now d c) = Return tt /\
  practice_area_table (fst (execute_upsert now d c)) = practice_area_table c /\
  practice_areas_seq (fst (execute_upsert now d c)) = practice_areas_seq c /\
  (existsb (conflicts (bar_number d) st) (attorneys c) = true ->
     map id (attorneys (fst (execute_upsert now d c))) = map id (attorneys c) /\
     last_insert_rowid (fst (execute_upsert now d c)) = last_insert_rowid c /\
     forall bar st',
       length (filter (conflicts bar st')
                 (attorneys (fst (execute_upsert now d c))))
       = length (filter (conflicts bar st') (attorneys c))) /\
  (existsb (conflicts (bar_number d) st) (attorneys c) = false ->
     attorneys (fst (execute_upsert now d c))
     = attorneys c
         ++ [new_row now (next_rowid (map id (attorneys c)) (attorneys_seq c))
               d st fn] /\
     last_insert_rowid (fst (execute_upsert now d c))
     = next_rowid (map id (attorneys c)) (attorneys_seq c)).
Proof.
  intros Hst Hfn. unfold execute_upsert. rewrite Hst, Hfn.
  destruct (existsb (conflicts (bar_number d) st) (attorneys c)) eqn:E; simpl.
  - repeat split; try discriminate.
    + rewrite map_map. apply map_ext. intro r.
      destruct (conflicts (bar_number d) st r); reflexivity.
    + intros bar st'. rewrite filter_conflicts_update. apply length_map.
  - repeat split; discriminate.
Qed.

(** *** The practice-area loop *)

Lemma execute_insert_or_ignore_spec (aid : Z) (area : string) (p : bool)
    (c : connection) :
  attorneys (execute_insert_or_ignore aid area p c) = attorneys c /\
  (existsb (same_area aid area) (practice_area_table c) = true ->
     practice_area_table (execute_insert_or_ignore aid area p c)
     = practice_area_table c) /\
  (existsb (same_area aid area) (practice_area_table c) = false ->
     practice_area_table (execute_insert_or_ignore aid area p c)
     = practice_area_table c
         ++ [mk_practice_area_row
               (next_rowid (map pa_id (practice_area_table c))
                           (practice_areas_seq c)) aid area p]).
Proof.
  unfold execute_insert_or_ignore.
  destruct (existsb (same_area aid area) (practice_area_table c));
    simpl; repeat split; try discriminate.
Qed.

Lemma same_area_self (aid : Z) (area : string) (rowid : Z) (p : bool) :
  same_area aid area (mk_practice_area_row rowid aid area p) = true.
Proof.
  unfold same_area. simpl. rewrite Z.eqb_refl, String.eqb_refl. reflexivity.
Qed.

Lemma same_area_eq (a aid : Z) (area area' : string) (r : practice_area_row) :
  same_area a area r = true -> same_area aid area' r = true ->
  a = aid /\ area = area'.
Proof.
  unfold same_area. intros H1 H2.
  apply andb_true_iff in H1, H2. destruct H1 as [Ha Hs], H2 as [Ha' Hs'].
  apply Z.eqb_eq in Ha, Ha'. apply String.eqb_eq in Hs, Hs'.
  split; congruence.
Qed.

(** [UNIQUE(attorney_id, practice_area)] is kept by the statement. *)
Lemma execute_insert_or_ignore_unique (aid : Z) (area : string) (p : bool)
    (c : connection) (a : Z) (area' : string) :
  length (filter (same_area a area') (practice_area_table c)) <= 1 ->
  length (filter (same_area a area')
            (practice_area_table (execute_insert_or_ignore aid area p c)))
  <= 1.
Proof.
  intro H.
  destruct (execute_insert_or_ignore_spec aid area p c) as (_ & Hign & Hins).
  destruct (existsb (same_area aid area) (practice_area_table c)) eqn:E.
  - rewrite (Hign eq_refl). assumption.
  - rewrite (Hins eq_refl), filter_app, length_app. simpl.
    destruct (same_area a area' _) eqn:Es; simpl; [|lia].
    assert (Hself := same_area_self aid area
              (next_rowid (map pa_id (practice_area_table c))
                          (practice_areas_seq c)) p).
    destruct (same_area_eq _ _ _ _ _ Es Hself) as [-> ->].
    rewrite (existsb_filter_nil _ _ E). simpl. lia.
Qed.

(** What the loop over the practice areas leaves behind: the attorneys are
    untouched, the old rows stay, and every new row belongs to [aid], comes
    from a non-empty string of the list, and is primary exactly when that
    string stands at index 0 of the whole list. *)
Lemma insert_practice_areas_spec (aid : Z) (areas : list pyval) :
  forall i c,
    attorneys (fst (insert_practice_areas aid i areas c)) = attorneys c /\
    exists extra,
      practice_area_table (fst (insert_practice_areas aid i areas c))
      = practice_area_table c ++ extra /\
      Forall (fun r =>
                attorney_id r = aid /\
                exists j s, nth_error areas j = Some (PyStr s) /\ s <> "" /\
                            practice_area r = strip s /\
                            is_primary r = (i + j =? 0)) extra.
Proof.
  induction areas as [|area areas IH]; intros i c; simpl.
  - split; [reflexivity|]. exists []. rewrite app_nil_r. auto.
  - assert (Hskip :
      attorneys (fst (insert_practice_areas aid (S i) areas c)) = attorneys c /\
      exists extra,
        practice_area_table (fst (insert_practice_areas aid (S i) areas c))
        = practice_area_table c ++ extra /\
        Forall (fun r =>
                  attorney_id r = aid /\
                  exists j s, nth_error (area :: areas) j = Some (PyStr s) /\
                              s <> "" /\ practice_area r = strip s /\
                              is_primary r = (i + j =? 0)) extra).
    { destruct (IH (S i) c) as (Ha & extra & Ht & Hall).
      split; [assumption|]. exists extra. split; [assumption|].
      eapply Forall_impl; [|exact Hall].
      intros r (Hr & j & s & Hj & Hs & Hp & Hprim).
      split; [assumption|]. exists (S j), s. simpl.
      repeat split; try assumption.
      rewrite Hprim. f_equal. lia. }
    destruct area as [|s|z]; simpl.
    + assumption.
    + destruct (String.eqb_spec s "") as [Hs | Hs]; simpl; [assumption|].
      destruct (IH (S i) (execute_insert_or_ignore aid (strip s) (i =? 0) c))
        as (Ha & extra & Ht & Hall).
      destruct (execute_insert_or_ignore_spec aid (strip s) (i =? 0) c)
        as (Ha0 & Hign & Hins).
      split; [congruence|].
      assert (Hall' :
        Forall (fun r =>
                  attorney_id r = aid /\
                  exists j s0, nth_error (PyStr s :: areas) j = Some (PyStr s0)
                               /\ s0 <> "" /\ practice_area r = strip s0 /\
                               is_primary r = (i + j =? 0)) extra).
      { eapply Forall_impl; [|exact Hall].
        intros r (Hr & j & s0 & Hj & Hs0 & Hp & Hprim).
        split; [assumption|]. exists (S j), s0. simpl.
        repeat split; try assumption.
        rewrite Hprim. f_equal. lia. }
      destruct (existsb (same_area aid (strip s)) (practice_area_table c))
        eqn:E.
      * rewrite (Hign eq_refl) in Ht. exists extra. auto.
      * rewrite (Hins eq_refl), <- app_assoc in Ht.
        eexists. split; [exact Ht|]. constructor; [|assumption].
        simpl. split; [reflexivity|]. exists 0, s. simpl.
        repeat split; try assumption. rewrite Nat.add_0_r. reflexivity.
    + destruct (z =? 0)%Z; simpl; [assumption|].
      split; [reflexivity|]. exists []. rewrite app_nil_r. auto.
Qed.

Lemma insert_practice_areas_unique (aid : Z) (areas : list pyval)
    (a : Z) (area' : string) :
  forall i c,
    length (filter (same_area a area') (practice_area_table c)) <= 1 ->
    length (filter (same_area a area')
              (practice_area_table (fst (insert_practice_areas aid i areas c))))
    <= 1.
Proof.
  induction areas as [|area areas IH]; intros i c H; simpl; [assumption|].
  destruct area as [|s|z]; simpl.
  - apply IH. assumption.
  - destruct (String.eqb s ""); simpl.
    + apply IH. assumption.
    + apply IH. apply execute_insert_or_ignore_unique. assumption.
  - destruct (z =? 0)%Z; simpl; [apply IH|]; assumption.
Qed.

(** When the loop returns normally, every non-empty string of the list is
    stored for [aid] under its stripped text. *)
Lemma insert_practice_areas_stored (aid : Z) (areas : list pyval) :
  forall i c,
    snd (insert_practice_areas aid i areas c) = Return tt ->
    forall s, In (PyStr s) areas -> s <> "" ->
      existsb (same_area aid (strip s))
        (practice_area_table (fst (insert_practice_areas aid i areas c)))
      = true.
Proof.
  induction areas as [|area areas IH]; intros i c Hret s Hin Hs;
    [contradiction|].
  simpl in Hret |- *.
  assert (Hkeep : forall i' c',
    existsb (same_area aid (strip s)) (practice_area_table c') = true ->
    existsb (same_area aid (strip s))
      (practice_area_table (fst (insert_practice_areas aid i' areas c')))
    = true).
  { intros i' c' H.
    destruct (insert_practice_areas_spec aid areas i' c')
      as (_ & extra & -> & _).
    rewrite existsb_app, H. reflexivity. }
  destruct area as [|s0|z]; simpl in *.
  - destruct Hin as [Hin | Hin]; [discriminate|]. apply IH; assumption.
  - destruct (String.eqb_spec s0 "") as [Hs0 | Hs0]; simpl in *.
    + destruct Hin as [[= Hin] | Hin]; [congruence|]. apply IH; assumption.
    + destruct Hin as [[= ->] | Hin]; [|apply IH; assumption].
      apply Hkeep.
      destruct (execute_insert_or_ignore_spec aid (strip s) (i =? 0) c)
        as (_ & Hign & Hins).
      destruct (existsb (same_area aid (strip s)) (practice_area_table c))
        eqn:E.
      * rewrite (Hign eq_refl). assumption.
      * rewrite (Hins eq_refl), existsb_app. simpl.
        rewrite same_area_self. apply orb_true_r.
  - destruct (z =? 0)%Z; simpl in *; [|discriminate].
    destruct Hin as [Hin | Hin]; [discriminate|]. apply IH; assumption.
Qed.

Lemma insert_practice_areas_raises (aid : Z) (areas : list pyval) :
  forall i c e,
    snd (insert_practice_areas aid i areas c) = Raise e ->
    is_Exception e = true.
Proof.
  induction areas as [|area areas IH]; intros i c e H; simpl in H;
    [discriminate|].
  destruct area as [|s|z]; simpl in H.
  - eapply IH; eassumption.
  - destruct (String.eqb s ""); simpl in H; eapply IH; eassumption.
  - destruct (z =? 0)%Z; simpl in H; [eapply IH; eassumption|].
    injection H as <-. reflexivity.
Qed.

(** *** [insert_attorney] *)

Lemma execute_upsert_practice_areas (now : string) (d : attorney)
    (c : connection) :
  practice_area_table (fst (execute_upsert now d c)) = practice_area_table c.
Proof.
  unfold execute_upsert.
  destruct (state d) as [st|]; [|reflexivity].
  destruct (full_name d) as [fn|]; [|reflexivity].
  destruct (existsb _ _); reflexivity.
Qed.

Lemma execute_upsert_raises (now : string) (d : attorney) (c : connection)
    (e : exn) :
  snd (execute_upsert now d c) = Raise e -> is_Exception e = true.
Proof.
  unfold execute_upsert.
  destruct (state d) as [st|]; [|intros [= <-]; reflexivity].
  destruct (full_name d) as [fn|]; [|intros [= <-]; reflexivity].
  destruct (existsb _ _); discriminate.
Qed.

Lemma insert_attorney_body_raises (now : string) (c : connection)
    (d : attorney) (e : exn) :
  snd (insert_attorney_body now c d) = Raise e -> is_Exception e = true.
Proof.
  unfold insert_attorney_body.
  destruct (execute_upsert now d c) as [c1 [[]|e1]] eqn:Eu; simpl.
  - destruct (insert_practice_areas _ _ _ _) as [c2 [[]|e2]] eqn:El; simpl;
      [discriminate|].
    intros [= <-].
    apply (insert_practice_areas_raises (last_insert_rowid c1)
             (practice_areas d) 0 c1).
    rewrite El. reflexivity.
  - intros [= <-]. apply (execute_upsert_raises now d c).
    rewrite Eu. reflexivity.
Qed.

(** The attorneys table after a call is the one the upsert statement left. *)
Lemma insert_attorney_attorneys (now : string) (c : connection)
    (d : attorney) :
  attorneys (fst (insert_attorney now c d))
  = attorneys (fst (execute_upsert now d c)).
Proof.
  unfold insert_attorney, insert_attorney_body.
  destruct (execute_upsert now d c) as [c1 [[]|e1]]; simpl.
  - pose proof (proj1 (insert_practice_areas_spec (last_insert_rowid c1)
                         (practice_areas d) 0 c1)) as Ha.
    destruct (insert_practice_areas _ _ _ _) as [c2 [[]|e2]]; simpl in *;
      [assumption|].
    destruct (is_Exception e2); assumption.
  - destruct (is_Exception e1); reflexivity.
Qed.

Lemma fresh_identity_no_row (aid : Z) (area : string)
    (rows : list practice_area_row) :
  (forall r, In r rows -> attorney_id r <> aid) ->
  existsb (same_area aid area) rows = false.
Proof.
  intro H. destruct (existsb (same_area aid area) rows) eqn:E; [|reflexivity].
  apply existsb_exists in E. destruct E as (r & Hin & Hr).
  unfold same_area in Hr. apply andb_true_iff in Hr. destruct Hr as [Hr _].
  apply Z.eqb_eq in Hr. exfalso. exact (H r Hin Hr).
Qed.

(** Attaching areas that are all stored for [aid] stores nothing: every
    statement of the loop is ignored, and the rows stay as they are. *)
Lemma insert_practice_areas_stored_noop (aid : Z) (areas : list pyval) :
  forall i c,
    (forall s, In (PyStr s) areas -> s <> "" ->
       existsb (same_area aid (strip s)) (practice_area_table c) = true) ->
    practice_area_table (fst (insert_practice_areas aid i areas c))
    = practice_area_table c.
Proof.
  induction areas as [|area areas IH]; intros i c H; simpl; [reflexivity|].
  destruct area as [|s|z]; simpl.
  - apply IH. intros s Hin. apply H. right. assumption.
  - destruct (String.eqb_spec s "") as [Hs | Hs]; simpl.
    + apply IH. intros s' Hin. apply H. right. assumption.
    + destruct (execute_insert_or_ignore_spec aid (strip s) (i =? 0) c)
        as (_ & Hign & _).
      specialize (Hign (H s (or_introl eq_refl) Hs)).
      rewrite IH; [exact Hign|].
      intros s' Hin Hs'. rewrite Hign. apply H; [right|]; assumption.
  - destruct (z =? 0)%Z; simpl; [|reflexivity].
    apply IH. intros s Hin. apply H. right. assumption.
Qed.

(** C7, as the code has it.  When [insert_attorney] returns an identity
    that had no practice areas yet, for a list whose first entry is a
    non-empty string: every non-empty entry of the list is stored for the
    identity under its stripped text, and nothing else is; a stored row is
    primary exactly when its text is the stripped first entry; no pair of
    identity and area is stored twice; and running the loop of lines 158-163
    again, with the same list for the same identity, leaves the rows of
    [practice_areas] exactly as they are. *)
Theorem practice_area_primary_flag (now : string) (c c' : connection)
    (d : attorney) (aid : Z) (first : string) (later : list pyval) :
  insert_attorney now c d = (c', Return (Some aid)) ->
  (forall r, In r (practice_area_table c) -> attorney_id r <> aid) ->
  practice_areas d = PyStr first :: later -> first <> "" ->
  (forall s, In (PyStr s) (practice_areas d) -> s <> "" ->
     exists r, In r (practice_area_table c') /\
               attorney_id r = aid /\ practice_area r = strip s) /\
  (forall r, In r (practice_area_table c') -> attorney_id r = aid ->
     (exists s, In (PyStr s) (practice_areas d) /\ s <> "" /\
                practice_area r = strip s) /\
     (is_primary r = true <-> practice_area r = strip first)) /\
  (forall area,
     length (filter (same_area aid area) (practice_area_table c')) <= 1) /\
  practice_area_table
    (fst (insert_practice_areas aid 0 (practice_areas d) c'))
  = practice_area_table c'.
Proof.
  intros H Hfresh Hd Hfirst.
  unfold insert_attorney, insert_attorney_body in H.
  pose proof (execute_upsert_practice_areas now d c) as Htab.
  destruct (execute_upsert now d c) as [c1 [[]|e1]]; simpl in Htab;
    [|destruct (is_Exception e1); discriminate].
  destruct (insert_practice_areas (last_insert_rowid c1) 0
              (practice_areas d) c1) as [c2 [[]|e2]] eqn:El;
    [|destruct (is_Exception e2); discriminate].
  injection H as <- <-.
  set (aid := last_insert_rowid c1) in *.
  rewrite <- Htab in Hfresh.
  assert (Hc2 : c2 = fst (insert_practice_areas aid 0 (practice_areas d) c1))
    by (rewrite El; reflexivity).
  assert (Huniq : forall area,
    length (filter (same_area aid area) (practice_area_table c2)) <= 1).
  { intro area. rewrite Hc2. apply insert_practice_areas_unique.
    rewrite (existsb_filter_nil _ _
               (fresh_identity_no_row aid area _ Hfresh)).
    simpl. lia. }
  assert (Hstored : forall s, In (PyStr s) (practice_areas d) -> s <> "" ->
    existsb (same_area aid (strip s)) (practice_area_table c2) = true).
  { intros s Hin Hs.
    assert (Hex := insert_practice_areas_stored aid (practice_areas d) 0 c1).
    rewrite El in Hex. exact (Hex eq_refl s Hin Hs). }
  destruct (insert_practice_areas_spec aid (practice_areas d) 0 c1)
    as (_ & extra & Ht & Hall).
  rewrite <- Hc2 in Ht.
  split; [|split; [|split]].
  - intros s Hin Hs.
    pose proof (Hstored s Hin Hs) as Hex.
    apply existsb_exists in Hex. destruct Hex as (r & Hr & Hsame).
    exists r. split; [assumption|].
    unfold same_area in Hsame. apply andb_true_iff in Hsame.
    destruct Hsame as [Ha Hp]. apply Z.eqb_eq in Ha.
    apply String.eqb_eq in Hp. auto.
  - intros r Hr Haid. rewrite Ht in Hr. apply in_app_or in Hr.
    destruct Hr as [Hr | Hr]; [exfalso; exact (Hfresh r Hr Haid)|].
    rewrite Forall_forall in Hall.
    destruct (Hall r Hr) as (_ & j & s & Hj & Hs & Hp & Hprim).
    split.
    { exists s. split; [|auto]. eapply nth_error_In. eassumption. }
    split.
    + intro Htrue. rewrite Htrue in Hprim. simpl in Hprim.
      symmetry in Hprim. apply Nat.eqb_eq in Hprim. subst j.
      rewrite Hd in Hj. simpl in Hj. injection Hj as <-. assumption.
    + intro Hp'.
      rewrite Hd in El. simpl in El.
      pose proof Hfirst as Hne. apply String.eqb_neq in Hne.
      rewrite Hne in El. simpl in El.
      destruct (execute_insert_or_ignore_spec aid (strip first) true c1)
        as (_ & _ & Hins).
      specialize (Hins (fresh_identity_no_row aid (strip first) _ Hfresh)).
      destruct (insert_practice_areas_spec aid later 1
                  (execute_insert_or_ignore aid (strip first) true c1))
        as (_ & extra' & Ht' & _).
      rewrite El in Ht'. simpl in Ht'. rewrite Hins in Ht'.
      set (r0 := mk_practice_area_row
                   (next_rowid (map pa_id (practice_area_table c1))
                               (practice_areas_seq c1)) aid (strip first) true)
        in *.
      assert (Hr0 : In r0 (practice_area_table c2)).
      { rewrite Ht'. apply in_or_app. left. apply in_or_app. right.
        left. reflexivity. }
      assert (Hr' : In r (practice_area_table c2)).
      { rewrite Ht. apply in_or_app. right. assumption. }
      assert (Heq : r = r0).
      { apply (filter_single (same_area aid (strip first))
                 (practice_area_table c2)); auto.
        - unfold same_area. rewrite Haid, Hp', Z.eqb_refl, String.eqb_refl.
          reflexivity.
        - apply same_area_self. }
      rewrite Heq. reflexivity.
  - exact Huniq.
  - apply insert_practice_areas_stored_noop. exact Hstored.
Qed.

(** C10.  [insert_attorney] always returns: every exception its body
    raises (a constraint of the [attorneys] table that fails, a practice
    area that is not a string) is of class [Exception], so the handler
    catches it and the call returns [None]. *)
Theorem insert_attorney_never_raises (now : string) (c : connection)
    (d : attorney) :
  exists c' r,
    insert_attorney now c d = (c', Return r) /\
    (forall e, snd (insert_attorney_body now c d) = Raise e -> r = None).
Proof.
  unfold insert_attorney.
  pose proof (insert_attorney_body_raises now c d) as Hexn.
  destruct (insert_attorney_body now c d) as [c' [aid | e]]; simpl in *.
  - exists c', (Some aid). split; [reflexivity | discriminate].
  - rewrite (Hexn e eq_refl). exists c', None. split; reflexivity.
Qed.

(** *** The natural key *)


(** The loop over the practice areas returns when every truthy entry is a
    string. *)
Lemma insert_practice_areas_returns (aid : Z) (areas : list pyval) :
  forall i c,
    Forall (fun v => area_truthy v = true -> exists s, v = PyStr s) areas ->
    snd (insert_practice_areas aid i areas c) = Return tt.
Proof.
  induction areas as [|v areas IH]; intros i c Hall; simpl; [reflexivity|].
  inversion Hall as [|v' l' Hv Hrest]; subst.
  destruct (area_truthy v) eqn:Et; [|apply IH; assumption].
  destruct (Hv eq_refl) as (s & ->). apply IH. assumption.
Qed.

(** X2.  While the tables have rowids left: a record without a bar number
    (with a state and a full name) is inserted as a new row on every call,
    under a rowid that no row of the table has; the call returns that rowid
    when the practice areas are a list whose truthy entries are strings. *)
Theorem null_bar_number_always_inserted (now : string) (c : connection)
    (d : attorney) (st fn : string) :
  bar_number d = None -> state d = Some st -> full_name d = Some fn ->
  let rowid := next_rowid (map id (attorneys c)) (attorneys_seq c) in
  (rowid <= max_rowid)%Z ->
  attorneys (fst (insert_attorney now c d))
  = attorneys c ++ [new_row now rowid d st fn] /\
  ~ In rowid (map id (attorneys c)) /\
  (Forall (fun v => area_truthy v = true -> exists s, v = PyStr s)
          (practice_areas d) ->
   (next_rowid (map pa_id (practice_area_table c)) (practice_areas_seq c)
    + Z.of_nat (length (practice_areas d)) <= max_rowid)%Z ->
   snd (insert_attorney now c d) = Return (Some rowid)).
Proof.
  intros Hb Hst Hfn rowid _.
  destruct (execute_upsert_spec now d c st fn Hst Hfn)
    as (Hret & _ & _ & _ & Hins).
  assert (E : existsb (conflicts (bar_number d) st) (attorneys c) = false).
  { rewrite Hb. clear. induction (attorneys c); [reflexivity | assumption]. }
  destruct (Hins E) as (Hrows & Hlast).
  split; [rewrite insert_attorney_attorneys; exact Hrows|].
  split; [apply next_rowid_fresh|].
  intros Hall _. unfold insert_attorney, insert_attorney_body.
  destruct (execute_upsert now d c) as [c1 r1]. simpl in *. subst r1.
  rewrite Hlast. fold rowid.
  pose proof (insert_practice_areas_returns rowid (practice_areas d) 0 c1 Hall)
    as Hloop.
  destruct (insert_practice_areas rowid 0 (practice_areas d) c1)
    as [c2 r2]. simpl in Hloop. subst r2. reflexivity.
Qed.

(** ** The runner *)

Lemma lookup_none {V : Type} (key : string) (m : list (string * V)) :
  ~ In key (map fst m) -> lookup key m = None.
Proof.
  induction m as [|[k v] m IH]; simpl; intro H; [reflexivity|].
  destruct (String.eqb_spec key k) as [-> | Hne].
  - exfalso. apply H. left. reflexivity.
  - apply IH. intro Hin. apply H. right. assumption.
Qed.

Section RunnerProperties.

Variable World : Type.
Variable import_scraper : string -> string -> World -> World * call_outcome.
Variable construct_scraper : string -> string -> World -> World * call_outcome.
Variable run_scraper_object : string -> World -> World * call_outcome.

(** C9.  For a state code that is not a key of [SCRAPERS], [run_scraper]
    returns [False] having only printed two lines: nothing is imported,
    no scraper is built or run, and the world outside the runner (network,
    persistent store, scrape log) is left as it was. *)
Theorem unknown_state_fails_early (state_code db_path : string) (w : World) :
  ~ In state_code (map fst SCRAPERS) ->
  exists line1 line2,
    run_scraper World import_scraper construct_scraper run_scraper_object
      state_code db_path w
    = (w, [Print line1; Print line2], false).
Proof.
  intro H. unfold run_scraper. rewrite (lookup_none _ _ H).
  eexists. eexists. reflexivity.
Qed.

End RunnerProperties.

(** * Worked instances *)

(** ** Extraction *)

Lemma extraction_cascade_order_witness :
  map fst (fst (find_results page_blocks_and_table)) = [fst bare_div] /\
  snd (find_results page_blocks_and_table) = [ResultBlocks] /\
  map fst (find_all (named "tr") (results_table, []))
  = [header_row; fst san_antonio_row; fst waco_row] /\
  map fst (fst (find_results page_table_only))
  = [fst san_antonio_row; fst waco_row].
Proof.
  destruct (proj1 (extraction_cascade_order page_blocks_and_table) eq_refl)
    as [Hblocks _].
  split; [rewrite Hblocks; reflexivity|].
  split; [rewrite Hblocks; reflexivity|].
  split; [reflexivity|].
  destruct (find_all (named "tr") (results_table, [])) as [|header rows] eqn:E;
    [discriminate|].
  destruct (proj1 (proj2 (extraction_cascade_order page_table_only))
              (results_table, []) header rows eq_refl eq_refl E
              (or_intror eq_refl)) as [Hrows _].
  rewrite Hrows. vm_compute in E. injection E as _ <-. reflexivity.
Defined.

Lemma unnamed_block_rejected_witness :
  truthy (@resolved_name (spec_scraper no_site) nameless_div) = false /\
  @parse_result (spec_scraper no_site) nameless_div = None.
Proof.
  split; [reflexivity|].
  apply (@unnamed_block_rejected (spec_scraper no_site) nameless_div).
  reflexivity.
Defined.

(** C5, as stated, fails: a table row whose single cell holds a link with
    the name has a resolved name and is rejected all the same. *)
Lemma named_single_cell_row_rejected :
  @resolved_name (spec_scraper no_site) lone_cell_row = Some "John Q Smith" /\
  @parse_result (spec_scraper no_site) lone_cell_row = None.
Proof. split; reflexivity. Qed.





(** ** Pagination *)

Lemma pagination_ends_without_cycle_witness :
  @chain_ends (spec_scraper two_page_site) 1 (first_page, []) = true /\
  fetched (fst (@parse_results (spec_scraper two_page_site) 2
                  (first_page, []) (new_scraper two_page_site)))
  = [] ++ @next_urls (spec_scraper two_page_site) 1 (first_page, []).
Proof.
  split; [reflexivity|].
  apply (@pagination_ends_without_cycle (spec_scraper two_page_site) 1
           (first_page, []) (new_scraper two_page_site) eq_refl 2).
  apply le_n.
Defined.

Lemma loop_site_chain_never_ends (k : nat) :
  @chain_ends (spec_scraper loop_site) k (loop_page, []) = false.
Proof.
  induction k as [|k IH]; [reflexivity|].
  change (@chain_ends (spec_scraper loop_site) (S k) (loop_page, []))
    with (@chain_ends (spec_scraper loop_site) k (loop_page, [])).
  exact IH.
Qed.

(** On the page that links to itself the traversal never returns: whatever
    the budget, it is used up, with as many fetches as the budget. *)
Lemma loop_site_never_done (fuel : nat) :
  snd (@parse_results (spec_scraper loop_site) fuel (loop_page, [])
         (new_scraper loop_site)) = Unfinished /\
  length (fetched (fst (@parse_results (spec_scraper loop_site) fuel
                          (loop_page, []) (new_scraper loop_site)))) = fuel.
Proof.
  apply (@parse_results_unfinished (spec_scraper loop_site) fuel
           (loop_page, []) (new_scraper loop_site)).
  apply loop_site_chain_never_ends.
Qed.

(** C1, as stated, fails: no set of visited addresses is kept.  On a page
    whose next link leads back to itself the one address is fetched again
    and again; five levels deep the traversal has fetched it five times and
    has not ended. *)
Lemma cycle_followed_again :
  snd (@parse_results (spec_scraper loop_site) 5 (loop_page, [])
         (new_scraper loop_site)) = Unfinished /\
  fetched (fst (@parse_results (spec_scraper loop_site) 5 (loop_page, [])
                  (new_scraper loop_site)))
  = repeat "https://www.texasbar.com/results?page=1" 5 /\
  length (nodup string_dec
            (fetched (fst (@parse_results (spec_scraper loop_site) 5
                             (loop_page, []) (new_scraper loop_site))))) = 1.
Proof. repeat split; vm_compute; reflexivity. Qed.

(** ** Persistence *)

(** C2, at the failing input: the same record, with two practice areas,
    submitted twice to a new database.  One attorney row is stored, under
    rowid 1, and the first call returns 1; the second call updates that row
    and returns 2, the rowid of the practice-area row inserted last, and
    attaches the practice areas to attorney 2. *)
Lemma update_returns_stale_rowid :
  snd (insert_attorney "t0" init_database ann_lee) = Return (Some 1%Z) /\
  snd (insert_attorney "t1"
         (fst (insert_attorney "t0" init_database ann_lee)) ann_lee)
  = Return (Some 2%Z) /\
  map id (attorneys
            (fst (insert_attorney "t1"
                    (fst (insert_attorney "t0" init_database ann_lee))
                    ann_lee))) = [1%Z] /\
  map attorney_id
      (practice_area_table
         (fst (insert_attorney "t1"
                 (fst (insert_attorney "t0" init_database ann_lee))
                 ann_lee))) = [1%Z; 1%Z; 2%Z; 2%Z].
Proof. repeat split; vm_compute; reflexivity. Qed.


Lemma null_bar_number_always_inserted_witness :
  attorneys (fst (insert_attorney "t0" init_database no_bar_number))
  = [] ++ [new_row "t0" 1%Z no_bar_number "TX" "Ann Lee"] /\
  snd (insert_attorney "t0" init_database no_bar_number)
  = Return (Some 1%Z).
Proof.
  destruct (null_bar_number_always_inserted "t0" init_database no_bar_number
              "TX" "Ann Lee" eq_refl eq_refl eq_refl ltac:(discriminate))
    as (Hrows & _ & Hret).
  split; [exact Hrows|].
  apply Hret; [constructor | discriminate].
Defined.

(** C7, as stated, fails twice over.  With an empty first entry the list
    is not empty, yet the one row stored is not primary, and no row is.
    And when a record that was stored with the one area "Family Law" is
    submitted again with the list "Litigation", "Family Law", the stored
    "Family Law" row is left as it is, primary, next to the new primary
    "Litigation" row: the statement is INSERT OR IGNORE, and a stored row
    keeps the flag it was stored with. *)
Lemma primary_flag_not_first_only :
  (snd (insert_attorney "t0" init_database ann_lee_blank_first)
   = Return (Some 1%Z) /\
   practice_area_table
     (fst (insert_attorney "t0" init_database ann_lee_blank_first))
   = [mk_practice_area_row 1 1 "Litigation" false]) /\
  (snd (insert_attorney "t1"
          (fst (insert_attorney "t0" init_database ann_lee_family_law))
          ann_lee)
   = Return (Some 1%Z) /\
   practice_area_table
     (fst (insert_attorney "t1"
             (fst (insert_attorney "t0" init_database ann_lee_family_law))
             ann_lee))
   = [mk_practice_area_row 1 1 "Family Law" true;
      mk_practice_area_row 2 1 "Litigation" true]).
Proof. repeat split; vm_compute; reflexivity. Qed.

Lemma practice_area_primary_flag_witness :
  insert_attorney "t0" init_database ann_lee
  = (fst (insert_attorney "t0" init_database ann_lee), Return (Some 1%Z)) /\
  practice_area_table (fst (insert_attorney "t0" init_database ann_lee))
  = [mk_practice_area_row 1 1 "Litigation" true;
     mk_practice_area_row 2 1 "Family Law" false] /\
  practice_area_table
    (fst (insert_practice_areas 1 0 (practice_areas ann_lee)
            (fst (insert_attorney "t0" init_database ann_lee))))
  = practice_area_table (fst (insert_attorney "t0" init_database ann_lee)).
Proof.
  split; [reflexivity|]. split; [reflexivity|].
  apply (practice_area_primary_flag "t0" init_database
           (fst (insert_attorney "t0" init_database ann_lee)) ann_lee 1%Z
           "Litigation" [PyStr "Family Law"] eq_refl).
  - intros r [].
  - reflexivity.
  - discriminate.
Defined.

(** ** The runner *)

Lemma unknown_state_fails_early_witness :
  exists line1 line2,
    run_scraper nat (fun _ _ => counting_call) (fun _ _ => counting_call)
      (fun _ => counting_call) "ZZ" "attorneys.db" 0
    = (0, [Print line1; Print line2], false).
Proof.
  apply (unknown_state_fails_early nat (fun _ _ => counting_call)
           (fun _ _ => counting_call) (fun _ => counting_call)
           "ZZ" "attorneys.db" 0).
  simpl. intuition discriminate.
Defined.

(** * Further properties of the scraper *)

Section ScraperAccounting.

Context {base : BaseBarScraper}.

(** X3.  Every address [parse_results] fetches starts with [http]: it is
    the [href] of the pager as it stands when that starts with [http], and
    otherwise the base address of the site with the [href] behind it,
    nothing put in between. *)
Theorem next_url_from_pager_href (fuel : nat) (soup : element) (st : scraper) :
  (forall url,
     next_url soup = Some url ->
     exists pager h,
       find_pager soup = Some pager /\ tag_href (fst pager) = Some h /\
       h <> "" /\
       url = if startswith "http" h then h else (BASE_URL ++ h)%string) /\
  exists new,
    fetched (fst (parse_results fuel soup st)) = fetched st ++ new /\
    Forall (fun url => startswith "http" url = true) new.
Proof.
  assert (Hurl : forall page url,
    next_url page = Some url ->
    exists pager h,
      find_pager page = Some pager /\ tag_href (fst pager) = Some h /\
      h <> "" /\
      url = if startswith "http" h then h else (BASE_URL ++ h)%string).
  { intros page url. unfold next_url.
    destruct (find_pager page) as [pager|]; [|discriminate].
    destruct (tag_href (fst pager)) as [h|] eqn:Ehref; [|discriminate].
    simpl. destruct (String.eqb_spec h "") as [Hh | Hh]; simpl;
      [discriminate|].
    intros [= <-]. exists pager, h. auto. }
  split; [apply Hurl|].
  revert soup st. induction fuel as [|fuel IH]; intros soup st; simpl.
  - exists []. rewrite app_nil_r. auto.
  - set (st1 := fold_left process_result (fst (find_results soup)) st).
    assert (Hst1 : fetched st1 = fetched st) by apply result_loop_fetched.
    destruct (next_url soup) as [url|] eqn:En.
    + assert (Hhttp : startswith "http" url = true).
      { destruct (Hurl soup url En) as (pager & h & _ & _ & _ & ->).
        destruct (startswith "http" h) eqn:Eh; [assumption | reflexivity]. }
      destruct (get_page url) as [page|].
      * destruct (IH (page, [])
                    (mk_scraper (store st1) (found st1) (errors st1)
                                (fetched st1 ++ [url]))) as (new & -> & Hall).
        simpl. rewrite Hst1, <- app_assoc. exists (url :: new). auto.
      * simpl. rewrite Hst1. exists [url]. auto.
    + simpl. rewrite Hst1. exists []. rewrite app_nil_r. auto.
Qed.

(** X4.  Over the blocks of a page, every block that parses to a record is
    counted exactly once: [found] grows by the number of calls of
    [save_attorney] that return and [errors] by the number of those that
    raise, and there is one call for every record; a block without a record
    is counted nowhere.  So with a [save_attorney] that never raises,
    [found] grows by the number of records and [errors] stays. *)
Theorem result_loop_accounting (results : list element) (st : scraper) :
  found (fold_left process_result results st)
  = found st + count_occ bool_dec (save_outcomes results (store st)) true /\
  errors (fold_left process_result results st)
  = errors st + count_occ bool_dec (save_outcomes results (store st)) false /\
  length (save_outcomes results (store st))
  = length (filter (fun e => is_some (parse_result e)) results) /\
  ((forall a s, snd (save_attorney a s) = true) ->
   found (fold_left process_result results st)
   = found st + length (filter (fun e => is_some (parse_result e)) results) /\
   errors (fold_left process_result results st) = errors st).
Proof.
  revert st. induction results as [|e results IH]; intro st; simpl.
  - repeat split; lia.
  - destruct (IH (process_result st e)) as (Hf & He & Hl & Hnever).
    unfold process_result in *.
    destruct (parse_result e) as [a|]; simpl.
    + destruct (save_attorney a (store st)) as [s' returned] eqn:Es.
      split; [|split; [|split]].
      * rewrite Hf. destruct returned; simpl; lia.
      * rewrite He. destruct returned; simpl; lia.
      * simpl. destruct returned; simpl in *; rewrite Hl; reflexivity.
      * intro Hsave. destruct (Hnever Hsave) as [Hf' He'].
        rewrite Hf', He'.
        specialize (Hsave a (store st)). rewrite Es in Hsave.
        simpl in Hsave. subst returned. simpl. split; lia.
    + auto.
Qed.

(** The bar-number pattern of the div parser captures eight digits. *)
Lemma digits8_spec (s d : string) :
  digits8 s = Some d -> String.length d = 8 /\ all_digits d = true.
Proof.
  unfold digits8.
  destruct (String.length (take 8 s) =? 8) eqn:El; simpl; [|discriminate].
  destruct (all_digits (take 8 s)) eqn:Ed; [|discriminate].
  intros [= <-]. apply Nat.eqb_eq in El. auto.
Qed.

Lemma bar_tail_spec (s d : string) :
  bar_tail s = Some d -> String.length d = 8 /\ all_digits d = true.
Proof.
  unfold bar_tail. destruct (digits8 (lstrip s)) as [d'|] eqn:E.
  - intros [= <-]. eapply digits8_spec; eassumption.
  - destruct (lstrip s) as [|ch s2]; [discriminate|].
    destruct ch as [[] [] [] [] [] [] [] []]; try discriminate.
    apply digits8_spec.
Qed.

Lemma first_some_in {A : Type} (l : list (option A)) (a : A) :
  first_some l = Some a -> In (Some a) l.
Proof.
  induction l as [|[x|] l IH]; simpl; intro H.
  - discriminate.
  - left. assumption.
  - right. auto.
Qed.

Lemma search_bar_number_spec (s : string) :
  forall d, search_bar_number s = Some d ->
            String.length d = 8 /\ all_digits d = true.
Proof.
  assert (Hhere : forall t d, bar_match_here t = Some d ->
                              String.length d = 8 /\ all_digits d = true).
  { intros t d. unfold bar_match_here.
    destruct (prefix_ci "Bar" t); [|discriminate].
    intro H. apply first_some_in in H. apply in_map_iff in H.
    destruct H as (l & Hl & _).
    destruct (prefix_ci l (lstrip (drop 3 t))); [|discriminate].
    eapply bar_tail_spec; eassumption. }
  assert (Hunfold : forall t,
    search_bar_number t
    = match bar_match_here t with
      | Some d => Some d
      | None => match t with
                | EmptyString => None
                | String _ t' => search_bar_number t'
                end
      end) by (intro t; destruct t; reflexivity).
  induction s as [|c s IH]; intros d H; rewrite Hunfold in H.
  - destruct (bar_match_here "") eqn:E; [|discriminate].
    injection H as <-. eapply Hhere; eassumption.
  - destruct (bar_match_here (String c s)) eqn:E.
    + injection H as <-. eapply Hhere; eassumption.
    + apply IH. assumption.
Qed.

(** X5.  The bar number of a record parsed from a block of ASCII text
    that is not a table row is a run of exactly eight digits. *)
Theorem div_bar_number_eight_digits (e : element) (a : attorney) (b : string) :
  parse_result e = Some a ->
  tag_name (fst e) <> "tr" ->
  is_ascii (get_text (fst e)) = true ->
  bar_number a = Some b ->
  String.length b = 8 /\ all_digits b = true.
Proof.
  intros H Htr _ Hb. unfold parse_result in H.
  destruct (String.eqb_spec (tag_name (fst e)) "tr"); [contradiction|].
  apply parse_div_result_some in H. destruct H as (nm & _ & _ & ->).
  simpl in Hb. eapply search_bar_number_spec; eassumption.
Qed.

End ScraperAccounting.

(** * Further properties of the database *)

(** A call of [insert_attorney] either fails at the upsert statement, for a
    missing state or full name, and leaves the connection as it was, or
    runs the practice-area loop on what the statement left. *)
Lemma insert_attorney_cases (now : string) (c : connection) (d : attorney) :
  ((state d = None \/ full_name d = None) /\
   insert_attorney now c d = (c, Return None)) \/
  (exists st fn,
     state d = Some st /\ full_name d = Some fn /\
     fst (insert_attorney now c d)
     = fst (insert_practice_areas
              (last_insert_rowid (fst (execute_upsert now d c))) 0
              (practice_areas d) (fst (execute_upsert now d c)))).
Proof.
  unfold insert_attorney, insert_attorney_body.
  destruct (state d) as [st|] eqn:Est;
    [|left; split; [auto|]; unfold execute_upsert; rewrite Est; reflexivity].
  destruct (full_name d) as [fn|] eqn:Efn;
    [|left; split; [auto|]; unfold execute_upsert; rewrite Est, Efn;
      reflexivity].
  right. exists st, fn. split; [reflexivity|]. split; [reflexivity|].
  destruct (execute_upsert_spec now d c st fn Est Efn) as (Hret & _).
  destruct (execute_upsert now d c) as [c1 r1]. simpl in *. subst r1.
  destruct (insert_practice_areas _ _ _ _) as [c2 [[]|e2]]; simpl;
    [reflexivity|].
  destruct (is_Exception e2); reflexivity.
Qed.

(** X6.  A call with a record that lacks a state or a full name stores
    nothing and returns [None]: the connection is left exactly as it was,
    practice areas included. *)
Theorem missing_required_column_stores_nothing (now : string)
    (c : connection) (d : attorney) :
  state d = None \/ full_name d = None ->
  insert_attorney now c d = (c, Return None).
Proof.
  intro H.
  destruct (insert_attorney_cases now c d)
    as [[_ Hfail] | (st & fn & Hst & Hfn & _)]; [assumption|].
  destruct H as [H | H]; congruence.
Qed.

Lemma NoDup_snoc {A : Type} (l : list A) (x : A) :
  NoDup l -> ~ In x l -> NoDup (l ++ [x]).
Proof.
  induction l as [|y l IH]; simpl; intros Hnd Hx.
  - constructor; [intros []|constructor].
  - inversion Hnd as [|y' l' Hy Hl]; subst. constructor.
    + intro Hin. apply in_app_or in Hin. destruct Hin as [Hin | [-> | []]].
      * contradiction.
      * apply Hx. left. reflexivity.
    + apply IH; [assumption|]. intro Hin. apply Hx. right. assumption.
Qed.

Lemma execute_upsert_schema (now : string) (d : attorney) (c : connection) :
  NoDup (map id (attorneys c)) -> unique_keys (attorneys c) ->
  NoDup (map id (attorneys (fst (execute_upsert now d c)))) /\
  unique_keys (attorneys (fst (execute_upsert now d c))).
Proof.
  intros Hids Hkeys.
  destruct (state d) as [st|] eqn:Est;
    [|unfold execute_upsert; rewrite Est; auto].
  destruct (full_name d) as [fn|] eqn:Efn;
    [|unfold execute_upsert; rewrite Est, Efn; auto].
  destruct (execute_upsert_spec now d c st fn Est Efn)
    as (_ & _ & _ & Hupd & Hins).
  destruct (existsb (conflicts (bar_number d) st) (attorneys c)) eqn:E.
  - destruct (Hupd eq_refl) as (Hmap & _ & Hlen). rewrite Hmap.
    split; [assumption|]. intros bar st'. rewrite Hlen. apply Hkeys.
  - destruct (Hins eq_refl) as (Hrows & _). rewrite Hrows. split.
    + rewrite map_app. simpl. apply NoDup_snoc; [assumption|].
      apply next_rowid_fresh.
    + intros bar st'. rewrite filter_app, length_app. simpl.
      destruct (conflicts bar st' (new_row now _ d st fn)) eqn:Enew;
        simpl; [|specialize (Hkeys bar st'); lia].
      unfold conflicts in Enew. simpl in Enew.
      destruct bar as [b'|]; [|discriminate].
      destruct (bar_number d) as [b|] eqn:Eb; [|discriminate].
      apply andb_true_iff in Enew. destruct Enew as [Hb Hs].
      apply String.eqb_eq in Hb, Hs. subst b' st'.
      rewrite (existsb_filter_nil _ _ E). simpl. lia.
Qed.

Lemma execute_insert_or_ignore_ids (aid : Z) (area : string) (p : bool)
    (c : connection) :
  NoDup (map pa_id (practice_area_table c)) ->
  NoDup (map pa_id
           (practice_area_table (execute_insert_or_ignore aid area p c))).
Proof.
  intro H.
  destruct (execute_insert_or_ignore_spec aid area p c) as (_ & Hign & Hins).
  destruct (existsb (same_area aid area) (practice_area_table c)) eqn:E.
  - rewrite (Hign eq_refl). assumption.
  - rewrite (Hins eq_refl), map_app. simpl.
    apply NoDup_snoc; [assumption | apply next_rowid_fresh].
Qed.

Lemma insert_practice_areas_ids (aid : Z) (areas : list pyval) :
  forall i c,
    NoDup (map pa_id (practice_area_table c)) ->
    NoDup (map pa_id
             (practice_area_table (fst (insert_practice_areas aid i areas c)))).
Proof.
  induction areas as [|area areas IH]; intros i c H; simpl; [assumption|].
  destruct area as [|s|z]; simpl.
  - apply IH. assumption.
  - destruct (String.eqb s ""); simpl.
    + apply IH. assumption.
    + apply IH. apply execute_insert_or_ignore_ids. assumption.
  - destruct (z =? 0)%Z; simpl; [apply IH|]; assumption.
Qed.

(** X7.  [insert_attorney] keeps the constraints of the schema: if rowids
    and keys are unique in both tables before a call, they are after it,
    whatever the record and whether the call succeeds or not. *)
Theorem insert_attorney_keeps_schema (now : string) (c : connection)
    (d : attorney) :
  schema_ok c -> schema_ok (fst (insert_attorney now c d)).
Proof.
  intros (Hids & Hkeys & Hpids & Hareas).
  destruct (insert_attorney_cases now c d)
    as [[_ Hfail] | (st & fn & Hst & Hfn & Hc')].
  - rewrite Hfail. simpl. repeat split; assumption.
  - destruct (execute_upsert_schema now d c Hids Hkeys) as [Hids1 Hkeys1].
    pose proof (execute_upsert_practice_areas now d c) as Htab.
    rewrite Hc'.
    set (c1 := fst (execute_upsert now d c)) in *.
    set (aid := last_insert_rowid c1).
    destruct (insert_practice_areas_spec aid (practice_areas d) 0 c1)
      as (Hatt & _).
    unfold schema_ok. rewrite Hatt.
    split; [assumption|]. split; [assumption|]. split.
    + apply insert_practice_areas_ids. rewrite Htab. assumption.
    + intros a area. apply insert_practice_areas_unique.
      rewrite Htab. apply Hareas.
Qed.







(** X10.  [insert_attorney] never deletes or renumbers: the rowids of
    [attorneys] stay in place with at most one new rowid behind them, the
    rows of [practice_areas] stay as they are with the new rows behind
    them, and every attorney row that does not have the key of the
    submitted record is left untouched. *)
Theorem insert_attorney_never_deletes (now : string) (c : connection)
    (d : attorney) :
  (exists new,
     map id (attorneys (fst (insert_attorney now c d)))
     = map id (attorneys c) ++ new /\ length new <= 1) /\
  (exists extra,
     practice_area_table (fst (insert_attorney now c d))
     = practice_area_table c ++ extra) /\
  (forall r,
     In r (attorneys c) ->
     (forall st, state d = Some st ->
                 conflicts (bar_number d) st r = false) ->
     In r (attorneys (fst (insert_attorney now c d)))).
Proof.
  destruct (insert_attorney_cases now c d)
    as [[_ Hfail] | (st & fn & Hst & Hfn & Hc')].
  - rewrite Hfail. simpl. split; [|split].
    + exists []. rewrite app_nil_r. auto.
    + exists []. rewrite app_nil_r. reflexivity.
    + auto.
  - rewrite insert_attorney_attorneys.
    destruct (execute_upsert_spec now d c st fn Hst Hfn)
      as (_ & Htab & _ & Hupd & Hins).
    split; [|split].
    + destruct (existsb (conflicts (bar_number d) st) (attorneys c)) eqn:E.
      * destruct (Hupd eq_refl) as (Hmap & _). exists [].
        rewrite app_nil_r. auto.
      * destruct (Hins eq_refl) as (Hrows & _). rewrite Hrows, map_app.
        eexists. split; [reflexivity | simpl; lia].
    + rewrite Hc'.
      destruct (insert_practice_areas_spec
                  (last_insert_rowid (fst (execute_upsert now d c)))
                  (practice_areas d) 0 (fst (execute_upsert now d c)))
        as (_ & extra & Ht & _).
      exists extra. rewrite Ht, Htab. reflexivity.
    + intros r Hin Hother. specialize (Hother st Hst).
      destruct (existsb (conflicts (bar_number d) st) (attorneys c)) eqn:E.
      * clear Hupd Hins. unfold execute_upsert. rewrite Hst, Hfn, E. simpl.
        apply in_map_iff. exists r. rewrite Hother. auto.
      * destruct (Hins eq_refl) as (Hrows & _). rewrite Hrows.
        apply in_or_app. left. assumption.
Qed.

Section ParserAndDatabase.

Context {base : BaseBarScraper}.

(** X11.  The records the block parsers return carry a non-empty full name
    and no state.  Handed to [insert_attorney] as they are, they are
    refused and nothing is stored.  Once a state is filled in, and while
    the table has rowids left, the call stores the record: afterwards a row
    with its bar number, the state and the name is in the table, and no
    practice area is added.  When no stored row had its key, that row is
    new and the call returns its rowid; when one had, the call returns the
    rowid of the row last inserted through the connection. *)
Theorem parsed_record_needs_state (e : element) (a : attorney) :
  parse_result e = Some a ->
  state a = None /\
  (exists nm, full_name a = Some nm /\ nm <> "") /\
  (forall now c, insert_attorney now c a = (c, Return None)) /\
  (forall now c d st nm,
     state d = Some st -> full_name d = Some nm -> full_name a = Some nm ->
     bar_number d = bar_number a -> practice_areas d = practice_areas a ->
     let rowid := next_rowid (map id (attorneys c)) (attorneys_seq c) in
     (rowid <= max_rowid)%Z ->
     (exists r, In r (attorneys (fst (insert_attorney now c d))) /\
                r_bar_number r = bar_number a /\ r_state r = st /\
                r_full_name r = nm) /\
     practice_area_table (fst (insert_attorney now c d))
     = practice_area_table c /\
     (existsb (conflicts (bar_number a) st) (attorneys c) = false ->
      attorneys (fst (insert_attorney now c d))
      = attorneys c ++ [new_row now rowid d st nm] /\
      snd (insert_attorney now c d) = Return (Some rowid)) /\
     (existsb (conflicts (bar_number a) st) (attorneys c) = true ->
      map id (attorneys (fst (insert_attorney now c d)))
      = map id (attorneys c) /\
      snd (insert_attorney now c d) = Return (Some (last_insert_rowid c)))).
Proof.
  intro H.
  assert (Hrec : exists nm, nm <> "" /\ full_name a = Some nm /\
                            state a = None /\ practice_areas a = []).
  { unfold parse_result in H.
    destruct (tag_name (fst e) =? "tr")%string.
    - apply parse_table_row_some in H.
      destruct H as (_ & nm & _ & Hnm & ->). exists nm. auto.
    - apply parse_div_result_some in H.
      destruct H as (nm & _ & Hnm & ->). exists nm. auto. }
  destruct Hrec as (nm & Hnm & Hfull & Hstate & Hareas).
  split; [assumption|]. split; [exists nm; auto|]. split.
  - intros now c.
    destruct (insert_attorney_cases now c a)
      as [[_ Hfail] | (st & fn & Hst & _)]; [assumption | congruence].
  - intros now c d st nm' Hst Hfn Hfn' Hbar Hpa rowid _.
    rewrite Hareas in Hpa. rewrite <- Hbar.
    destruct (execute_upsert_spec now d c st nm' Hst Hfn)
      as (Hret & Htab & _ & Hupd & Hins).
    assert (Hcall : insert_attorney now c d
                    = (fst (execute_upsert now d c),
                       Return (Some (last_insert_rowid
                                       (fst (execute_upsert now d c)))))).
    { unfold insert_attorney, insert_attorney_body.
      destruct (execute_upsert now d c) as [c1 r1]. simpl in *. subst r1.
      rewrite Hpa. reflexivity. }
    rewrite Hcall. simpl.
    split; [|split; [exact Htab|split]].
    + destruct (existsb (conflicts (bar_number d) st) (attorneys c)) eqn:E.
      * apply existsb_exists in E. destruct E as (r & Hr & Hconf).
        exists (do_update now d nm' r). split.
        { unfold execute_upsert. rewrite Hst, Hfn.
          assert (E : existsb (conflicts (bar_number d) st) (attorneys c)
                      = true) by (apply existsb_exists; eauto).
          rewrite E. simpl. apply in_map_iff. exists r. rewrite Hconf. auto. }
        unfold conflicts in Hconf. simpl.
        destruct (bar_number d) as [b|]; [|discriminate].
        destruct (r_bar_number r) as [b'|]; [|discriminate].
        apply andb_true_iff in Hconf. destruct Hconf as [Hb Hs].
        apply String.eqb_eq in Hb, Hs. subst. auto.
      * destruct (Hins eq_refl) as (Hrows & _). rewrite Hrows.
        exists (new_row now rowid d st nm'). split; [|simpl; auto].
        apply in_or_app. right. left. reflexivity.
    + intro E. destruct (Hins E) as (Hrows & Hlast).
      rewrite Hrows, Hlast. auto.
    + intro E. destruct (Hupd E) as (Hids & Hlast & _).
      rewrite Hids, Hlast. auto.
Qed.

End ParserAndDatabase.

(** * Worked instances of the further properties *)

Lemma next_url_from_pager_href_witness :
  @next_url (first_page, []) = Some "https://www.texasbar.com/results?page=2" /\
  @next_url relative_pager_page = Some "https://www.texasbar.compage2" /\
  @next_url httpdocs_pager_page = Some "httpdocs/page2" /\
  exists new,
    fetched (fst (@parse_results (spec_scraper two_page_site) 2
                    (first_page, []) (new_scraper two_page_site)))
    = [] ++ new /\
    Forall (fun url => startswith "http" url = true) new.
Proof.
  split; [reflexivity|]. split; [reflexivity|]. split; [reflexivity|].
  exact (proj2 (@next_url_from_pager_href (spec_scraper two_page_site) 2
                  (first_page, []) (new_scraper two_page_site))).
Defined.

Lemma result_loop_accounting_witness :
  @save_outcomes refusing_scraper [san_antonio_row; nameless_div; bare_div] []
  = [true; false] /\
  found (fold_left (@process_result refusing_scraper)
           [san_antonio_row; nameless_div; bare_div]
           (@mk_scraper refusing_scraper [] 0 0 [])) = 1 /\
  errors (fold_left (@process_result refusing_scraper)
            [san_antonio_row; nameless_div; bare_div]
            (@mk_scraper refusing_scraper [] 0 0 [])) = 1.
Proof.
  destruct (@result_loop_accounting refusing_scraper
              [san_antonio_row; nameless_div; bare_div]
              (@mk_scraper refusing_scraper [] 0 0 []))
    as (Hfound & Herrors & _).
  split; [reflexivity|]. split.
  - rewrite Hfound. reflexivity.
  - rewrite Herrors. reflexivity.
Defined.

Lemma div_bar_number_eight_digits_witness :
  @parse_result (spec_scraper no_site) doe_div = Some doe_record /\
  String.length "87654321" = 8 /\ all_digits "87654321" = true.
Proof.
  split; [reflexivity|].
  apply (@div_bar_number_eight_digits (spec_scraper no_site) doe_div
           doe_record "87654321" eq_refl);
    [discriminate | reflexivity | reflexivity].
Defined.

Lemma missing_required_column_stores_nothing_witness :
  insert_attorney "t0" init_database stateless_attorney
  = (init_database, Return None).
Proof.
  apply (missing_required_column_stores_nothing "t0" init_database
           stateless_attorney).
  left. reflexivity.
Defined.

Lemma init_database_schema_ok : schema_ok init_database.
Proof.
  unfold schema_ok, unique_keys, unique_areas. simpl.
  repeat split; try constructor; intros; simpl; lia.
Qed.

Lemma insert_attorney_keeps_schema_witness :
  schema_ok (fst (insert_attorney "t0" init_database ann_lee)).
Proof.
  apply (insert_attorney_keeps_schema "t0" init_database ann_lee).
  unfold schema_ok, unique_keys, unique_areas. simpl.
  repeat split; try constructor; intros; simpl; lia.
Defined.



Lemma parsed_record_needs_state_witness :
  @parse_result (spec_scraper no_site) doe_div = Some doe_record /\
  insert_attorney "t0" init_database doe_record
  = (init_database, Return None) /\
  attorneys (fst (insert_attorney "t0" init_database doe_tx))
  = [] ++ [new_row "t0" 1 doe_tx "TX" "Jane Doe"] /\
  snd (insert_attorney "t0" init_database doe_tx) = Return (Some 1%Z).
Proof.
  split; [reflexivity|].
  destruct (@parsed_record_needs_state (spec_scraper no_site) doe_div
              doe_record eq_refl) as (_ & _ & Hrefused & Hstored).
  split; [apply Hrefused|].
  destruct (Hstored "t0" init_database doe_tx "TX" "Jane Doe"
              eq_refl eq_refl eq_refl eq_refl eq_refl ltac:(discriminate))
    as (_ & _ & Hnew & _).
  exact (Hnew eq_refl).
Defined.

(** * Further properties of the runner *)

Section RunnerStages.

Variable World : Type.
Variable import_scraper : string -> string -> World -> World * call_outcome.
Variable construct_scraper : string -> string -> World -> World * call_outcome.
Variable run_scraper_object : string -> World -> World * call_outcome.

(** X12.  For a registered state, [run_scraper] imports first, builds the
    scraper only when the import returned and runs it only when the
    construction returned; it returns [True] exactly when all three
    returned. *)
Theorem run_scraper_stages (state_code db_path : string) (w : World)
    (state_name module_name class_name : string) :
  lookup state_code SCRAPERS = Some (state_name, module_name, class_name) ->
  let r := run_scraper World import_scraper construct_scraper
             run_scraper_object state_code db_path w in
  let i := import_scraper module_name class_name w in
  let k := construct_scraper class_name db_path (fst i) in
  let u := run_scraper_object class_name (fst k) in
  hd_error (snd (fst r)) = Some (Import module_name class_name) /\
  (In (Construct class_name db_path) (snd (fst r)) <->
   raised (snd i) = false) /\
  (In (Run class_name) (snd (fst r)) <->
   raised (snd i) = false /\ raised (snd k) = false) /\
  (snd r = true <->
   raised (snd i) = false /\ raised (snd k) = false /\
   raised (snd u) = false).
Proof.
  intro Hreg. unfold run_scraper. rewrite Hreg.
  destruct (import_scraper module_name class_name w) as [w1 o1].
  cbn [fst snd].
  destruct (raised o1) eqn:E1.
  - cbn [fst snd]. split; [reflexivity|].
    destruct o1; simpl in *; try discriminate;
      repeat split; intros; intuition discriminate.
  - destruct (construct_scraper class_name db_path w1) as [w2 o2].
    cbn [fst snd]. destruct (raised o2) eqn:E2.
    + cbn [fst snd]. split; [reflexivity|].
      destruct o2; simpl in *; try discriminate;
        repeat split; intros; intuition discriminate.
    + destruct (run_scraper_object class_name w2) as [w3 o3].
      cbn [fst snd]. destruct (raised o3) eqn:E3; cbn [fst snd];
        (split; [reflexivity|]).
      * destruct o3; simpl in *; try discriminate;
          repeat split; intros; intuition discriminate.
      * simpl. repeat split; intros; intuition discriminate.
Qed.

Lemma imports_app (e1 e2 : list event) :
  imports (e1 ++ e2) = imports e1 ++ imports e2.
Proof. unfold imports. apply flat_map_app. Qed.

Lemma run_scraper_imports (state_code db_path : string) (w : World)
    (state_name module_name class_name : string) :
  lookup state_code SCRAPERS = Some (state_name, module_name, class_name) ->
  imports (snd (fst (run_scraper World import_scraper construct_scraper
                       run_scraper_object state_code db_path w)))
  = [(module_name, class_name)].
Proof.
  intro Hreg. unfold run_scraper. rewrite Hreg.
  destruct (import_scraper module_name class_name w) as [w1 o1].
  destruct (raised o1).
  { destruct o1; reflexivity. }
  destruct (construct_scraper class_name db_path w1) as [w2 o2].
  destruct (raised o2).
  { destruct o2; reflexivity. }
  destruct (run_scraper_object class_name w2) as [w3 o3].
  destruct (raised o3); [destruct o3|]; reflexivity.
Qed.

Lemma run_all_loop_spec (db_path : string) (w : World) :
  imports (snd (fst (run_all_loop World import_scraper construct_scraper
                       run_scraper_object db_path w)))
  = map (fun entry => (snd (fst (snd entry)), snd (snd entry))) SCRAPERS /\
  map fst (snd (run_all_loop World import_scraper construct_scraper
                  run_scraper_object db_path w))
  = map fst SCRAPERS.
Proof.
  unfold run_all_loop. simpl fold_left. unfold run_all_step.
  pose proof (run_scraper_imports "CA" db_path w _ _ _ eq_refl) as H1.
  destruct (run_scraper _ _ _ _ "CA" db_path w) as [[w1 e1] ok1].
  cbv beta iota.
  pose proof (run_scraper_imports "NY" db_path w1 _ _ _ eq_refl) as H2.
  destruct (run_scraper _ _ _ _ "NY" db_path w1) as [[w2 e2] ok2].
  cbv beta iota.
  pose proof (run_scraper_imports "TX" db_path w2 _ _ _ eq_refl) as H3.
  destruct (run_scraper _ _ _ _ "TX" db_path w2) as [[w3 e3] ok3].
  cbv beta iota.
  pose proof (run_scraper_imports "FL" db_path w3 _ _ _ eq_refl) as H4.
  destruct (run_scraper _ _ _ _ "FL" db_path w3) as [[w4 e4] ok4].
  cbv beta iota.
  pose proof (run_scraper_imports "IL" db_path w4 _ _ _ eq_refl) as H5.
  destruct (run_scraper _ _ _ _ "IL" db_path w4) as [[w5 e5] ok5].
  cbn [fst snd] in *. split.
  - rewrite !imports_app, H1, H2, H3, H4, H5. reflexivity.
  - vm_compute. reflexivity.
Qed.

(** X13.  [run_all_scrapers] attempts every scraper of the registry, once
    and in the order of the registry, whichever of them fail; its summary
    has one entry per registered state, and [show_stats] is its last
    call. *)
Theorem run_all_attempts_every_scraper (db_path : string) (w : World) :
  imports (scraper_events
             (snd (run_all_scrapers World import_scraper construct_scraper
                     run_scraper_object db_path w)))
  = map (fun entry => (snd (fst (snd entry)), snd (snd entry))) SCRAPERS /\
  map fst (snd (run_all_loop World import_scraper construct_scraper
                  run_scraper_object db_path w))
  = map fst SCRAPERS /\
  last (snd (run_all_scrapers World import_scraper construct_scraper
               run_scraper_object db_path w)) (CallShowStats "")
  = CallShowStats db_path.
Proof.
  destruct (run_all_loop_spec db_path w) as [Himp Hkeys].
  unfold run_all_scrapers.
  destruct (run_all_loop _ _ _ _ db_path w) as [[w' evs] results].
  cbn [fst snd] in *.
  assert (Hev : forall l,
    scraper_events (map ScraperEvent l ++ [CallShowStats db_path]) = l).
  { intro l. unfold scraper_events. rewrite flat_map_app. simpl.
    rewrite app_nil_r. induction l as [|e l IH]; simpl; congruence. }
  assert (Hsummary : forall l, imports (map summary_line l) = []).
  { induction l as [|[st ok] l IH]; [reflexivity | exact IH]. }
  split; [|split].
  - rewrite Hev, !imports_app, Himp, Hsummary. reflexivity.
  - assumption.
  - apply last_last.
Qed.

End RunnerStages.

(** X14.  [main] runs scrapers exactly when none of [--init], [--stats], a
    non-empty [--export] and a non-empty [--search] is given: each of these
    takes the place of scraping. *)
Theorem main_scrapes_only_by_default (a : arguments) (db_exists : bool) :
  existsb runs_scraper (main a db_exists)
  = negb (arg_init a || arg_stats a || truthy (arg_export a)
          || truthy (arg_search a)).
Proof.
  assert (Hrun : existsb runs_scraper (main_run a) = true).
  { unfold main_run. destruct (given (arg_state a)) as [st|]; [|reflexivity].
    unfold split_comma. destruct st as [|c st]; [reflexivity|]. simpl.
    destruct (Ascii.eqb c ","); [reflexivity|].
    generalize (String c ""). induction st as [|c' st IH]; intro cur;
      [reflexivity|].
    simpl. destruct (Ascii.eqb c' ","); [reflexivity | apply IH]. }
  assert (Hgiven : forall o, truthy o = match given o with
                                        | Some _ => true
                                        | None => false
                                        end).
  { intros [v|]; [|reflexivity]. unfold given. destruct (truthy (Some v));
      reflexivity. }
  unfold main. rewrite (Hgiven (arg_export a)), (Hgiven (arg_search a)).
  destruct (arg_init a), (arg_stats a), db_exists; simpl;
    try reflexivity;
    destruct (given (arg_export a)); simpl; try reflexivity;
    destruct (given (arg_search a)); simpl; try reflexivity;
    exact Hrun.
Qed.

(** X15.  [main] initialises the database exactly when [--init] is given
    or the database file does not exist, and then before anything else;
    with [--init] it does nothing more than report it. *)
Theorem main_initialises_first (a : arguments) (db_exists : bool) :
  (arg_init a || negb db_exists = true ->
   hd_error (main a db_exists) = Some (CallInitDatabase (arg_db a))) /\
  (arg_init a || negb db_exists = false ->
   forall p, ~ In (CallInitDatabase p) (main a db_exists)) /\
  (arg_init a = true ->
   main a db_exists
   = [CallInitDatabase (arg_db a);
      CallPrint (check_mark ++ " Database initialized")%string]).
Proof.
  assert (Hrun : forall p, ~ In (CallInitDatabase p) (main_run a)).
  { intros p. unfold main_run.
    destruct (given (arg_state a)) as [st|]; [|intros [H | []]; discriminate].
    intro H. apply in_map_iff in H. destruct H as (x & H & _). discriminate. }
  unfold main. split; [|split].
  - intro H. rewrite H.
    destruct (arg_init a); [reflexivity|].
    destruct (arg_stats a); [reflexivity|].
    destruct (given (arg_export a)); [reflexivity|].
    destruct (given (arg_search a)); reflexivity.
  - intros H p. rewrite H. apply orb_false_iff in H. destruct H as [Hi _].
    rewrite Hi. simpl.
    destruct (arg_stats a); [intros [H | []]; discriminate|].
    destruct (given (arg_export a)); [intros [H | []]; discriminate|].
    destruct (given (arg_search a)); [intros [H | []]; discriminate|].
    apply Hrun.
  - intros ->. reflexivity.
Qed.

(** * Properties of [search_attorneys] *)

Lemma insert_by_name_perm (x : attorney_row) (l : list attorney_row) :
  Permutation (insert_by_name x l) (x :: l).
Proof.
  induction l as [|y l IH]; simpl; [apply Permutation_refl|].
  destruct (name_leb y x); [|apply Permutation_refl].
  eapply Permutation_trans; [apply perm_skip; exact IH | apply perm_swap].
Qed.

Lemma order_by_name_perm (l : list attorney_row) :
  Permutation (order_by_name l) l.
Proof.
  unfold order_by_name.
  assert (H : forall acc,
    Permutation (fold_left (fun sorted x => insert_by_name x sorted) l acc)
                (acc ++ l)).
  { induction l as [|x l IH]; intro acc; simpl.
    - rewrite app_nil_r. apply Permutation_refl.
    - eapply Permutation_trans; [apply IH|].
      eapply Permutation_trans;
        [apply Permutation_app_tail; apply insert_by_name_perm|].
      simpl. apply Permutation_middle. }
  apply (H []).
Qed.

Lemma apply_limit_firstn {A : Type} (limit : option Z) (rows : list A) :
  exists n, apply_limit limit rows = firstn n rows.
Proof.
  unfold apply_limit. destruct limit as [n|].
  - destruct (n =? 0)%Z; [exists (length rows); symmetry; apply firstn_all|].
    destruct (n <? 0)%Z; [exists (length rows); symmetry; apply firstn_all|].
    eexists. reflexivity.
  - exists (length rows). symmetry. apply firstn_all.
Qed.

Lemma in_firstn {A : Type} (n : nat) (l : list A) (x : A) :
  In x (firstn n l) -> In x l.
Proof.
  intro H. rewrite <- (firstn_skipn n l). apply in_or_app. left. assumption.
Qed.

Lemma in_joined_areas (c : connection) (a : attorney_row)
    (p : practice_area_row) :
  In (Some p) (joined_areas c a) ->
  In p (practice_area_table c) /\ attorney_id p = id a.
Proof.
  unfold joined_areas.
  destruct (filter (fun q => (attorney_id q =? id a)%Z) (practice_area_table c))
    as [|q ps] eqn:E.
  - intros [H | []]. discriminate.
  - rewrite <- E. intro H. apply in_map_iff in H.
    destruct H as (q' & [= ->] & Hin). apply filter_In in Hin.
    destruct Hin as [Hin Hid]. apply Z.eqb_eq in Hid. auto.
Qed.

(** The rows the statement selects before the LIMIT: the stored attorneys
    with a row in the join that passes the WHERE clause. *)
Lemma in_selected (c : connection) (f : search_filters) (r : attorney_row) :
  In r (nodup attorney_row_eq_dec
          (map fst (filter (fun j => where_clause f (fst j) (snd j))
                           (left_join c)))) <->
  In r (attorneys c) /\
  exists pa, In pa (joined_areas c r) /\ where_clause f r pa = true.
Proof.
  rewrite nodup_In, in_map_iff. split.
  - intros ([a pa] & Hfst & Hin). simpl in Hfst. subst a.
    apply filter_In in Hin. destruct Hin as [Hin Hw]. simpl in Hw.
    unfold left_join in Hin. apply in_flat_map in Hin.
    destruct Hin as (a & Ha & Hin). apply in_map_iff in Hin.
    destruct Hin as (pa' & [= -> ->] & Hpa). eauto.
  - intros (Hr & pa & Hpa & Hw). exists (r, pa). split; [reflexivity|].
    apply filter_In. split; [|assumption].
    unfold left_join. apply in_flat_map. exists r. split; [assumption|].
    apply in_map. assumption.
Qed.

(** X16.  Every attorney [search_attorneys] returns is stored and passes
    every filter that was given a non-empty value: the state and the status
    are equal to the filter, the city, the firm and one of its practice
    areas match the LIKE pattern of the filter, and so does its full name
    or its last name. *)
Theorem search_results_match_filters (c : connection) (f : search_filters)
    (r : attorney_row) :
  In r (search_attorneys c f) ->
  In r (attorneys c) /\
  (forall v, given (f_state f) = Some v -> r_state r = v) /\
  (forall v, given (f_practice_area f) = Some v ->
     exists p, In p (practice_area_table c) /\ attorney_id p = id r /\
               sqlite_like (contains_pattern v) (practice_area p) = true) /\
  (forall v, given (f_city f) = Some v ->
     like_column (contains_pattern v) (r_city r) = true) /\
  (forall v, given (f_firm f) = Some v ->
     like_column (contains_pattern v) (r_firm_name r) = true) /\
  (forall v, given (f_status f) = Some v -> r_status r = Some v) /\
  (forall v, given (f_name f) = Some v ->
     sqlite_like (contains_pattern v) (r_full_name r) = true \/
     like_column (contains_pattern v) (r_last_name r) = true).
Proof.
  unfold search_attorneys. intro H.
  destruct (apply_limit_firstn (f_limit f)
              (order_by_name
                 (nodup attorney_row_eq_dec
                    (map fst (filter (fun j => where_clause f (fst j) (snd j))
                                     (left_join c)))))) as [n Hn].
  rewrite Hn in H. apply in_firstn in H.
  apply (Permutation_in _ (order_by_name_perm _)) in H.
  apply in_selected in H. destruct H as (Hr & pa & Hpa & Hw).
  split; [assumption|]. unfold where_clause in Hw.
  apply andb_true_iff in Hw. destruct Hw as [Hw Hname].
  apply andb_true_iff in Hw. destruct Hw as [Hw Hstatus].
  apply andb_true_iff in Hw. destruct Hw as [Hw Hfirm].
  apply andb_true_iff in Hw. destruct Hw as [Hw Hcity].
  apply andb_true_iff in Hw. destruct Hw as [Hstate Harea].
  repeat split; intros v Hv.
  - rewrite Hv in Hstate. apply String.eqb_eq. assumption.
  - rewrite Hv in Harea. destruct pa as [p|]; [|discriminate].
    destruct (in_joined_areas c r p Hpa) as [Hin Hid]. exists p. auto.
  - rewrite Hv in Hcity. assumption.
  - rewrite Hv in Hfirm. assumption.
  - rewrite Hv in Hstatus. destruct (r_status r) as [s'|]; [|discriminate].
    apply String.eqb_eq in Hstatus. congruence.
  - rewrite Hv in Hname. apply orb_true_iff. assumption.
Qed.

(** X17.  [search_attorneys] returns no attorney twice, however many of its
    practice areas match; with a positive limit it returns at most that
    many; and without one (no limit, [0] or a negative one) it returns,
    when rowids are unique, exactly the stored attorneys that have a row in
    the join passing the WHERE clause, each once. *)
Theorem search_returns_each_match_once (c : connection) (f : search_filters) :
  NoDup (search_attorneys c f) /\
  (forall n, f_limit f = Some n -> (0 < n)%Z ->
     length (search_attorneys c f) <= Z.to_nat n) /\
  (f_limit f = None \/ (exists n, f_limit f = Some n /\ (n <= 0)%Z) ->
   NoDup (map id (attorneys c)) ->
   Permutation (search_attorneys c f)
               (filter (search_matches c f) (attorneys c))).
Proof.
  unfold search_attorneys.
  set (selected := nodup attorney_row_eq_dec
                     (map fst (filter (fun j => where_clause f (fst j) (snd j))
                                      (left_join c)))).
  assert (Hsorted : NoDup (order_by_name selected)).
  { apply (Permutation_NoDup (Permutation_sym (order_by_name_perm selected))).
    apply NoDup_nodup. }
  split; [|split].
  - destruct (apply_limit_firstn (f_limit f) (order_by_name selected))
      as [n ->].
    rewrite <- (firstn_skipn n (order_by_name selected)) in Hsorted.
    apply NoDup_app_remove_r in Hsorted. assumption.
  - intros n Hn Hpos. unfold apply_limit. rewrite Hn.
    destruct (Z.eqb_spec n 0); [lia|].
    destruct (Z.ltb_spec n 0); [lia|]. apply firstn_le_length.
  - intros Hlimit Hids.
    assert (Hall : apply_limit (f_limit f) (order_by_name selected)
                   = order_by_name selected).
    { unfold apply_limit. destruct Hlimit as [-> | (n & -> & Hn)];
        [reflexivity|].
      destruct (Z.eqb_spec n 0); [reflexivity|].
      destruct (Z.ltb_spec n 0); [reflexivity | lia]. }
    rewrite Hall.
    eapply Permutation_trans; [apply order_by_name_perm|].
    apply NoDup_Permutation.
    + apply NoDup_nodup.
    + apply NoDup_filter. apply (NoDup_map_inv id). assumption.
    + intro r. unfold selected. rewrite in_selected, filter_In.
      unfold search_matches. rewrite existsb_exists. reflexivity.
Qed.






(** * Properties of [get_stats] *)

Section Grouping.

Context {A : Type} (dec : forall x y : A, {x = y} + {x <> y}).
Variable leb : A -> A -> bool.

Lemma insert_by_key_perm (x : A) (l : list A) :
  Permutation (insert_by_key leb x l) (x :: l).
Proof.
  induction l as [|y l IH]; simpl; [apply Permutation_refl|].
  destruct (leb x y); [apply Permutation_refl|].
  eapply Permutation_trans; [apply perm_skip; exact IH | apply perm_swap].
Qed.

Lemma order_by_key_perm (l : list A) : Permutation (order_by_key leb l) l.
Proof.
  induction l as [|x l IH]; simpl; [apply Permutation_refl|].
  eapply Permutation_trans; [apply insert_by_key_perm|].
  apply perm_skip. exact IH.
Qed.

Lemma insert_by_count_perm (x : A * nat) (l : list (A * nat)) :
  Permutation (insert_by_count x l) (x :: l).
Proof.
  induction l as [|y l IH]; simpl; [apply Permutation_refl|].
  destruct (snd x <=? snd y); [|apply Permutation_refl].
  eapply Permutation_trans; [apply perm_skip; exact IH | apply perm_swap].
Qed.

Lemma order_by_count_desc_perm (l : list (A * nat)) :
  Permutation (order_by_count_desc l) l.
Proof.
  unfold order_by_count_desc.
  assert (H : forall acc,
    Permutation (fold_left (fun sorted x => insert_by_count x sorted) l acc)
                (acc ++ l)).
  { induction l as [|x l IH]; intro acc; simpl.
    - rewrite app_nil_r. apply Permutation_refl.
    - eapply Permutation_trans; [apply IH|].
      eapply Permutation_trans;
        [apply Permutation_app_tail; apply insert_by_count_perm|].
      simpl. apply Permutation_middle. }
  apply (H []).
Qed.

Definition count_desc (x y : A * nat) : Prop := snd y <= snd x.

Lemma insert_by_count_sorted (x : A * nat) (l : list (A * nat)) :
  StronglySorted count_desc l -> StronglySorted count_desc (insert_by_count x l).
Proof.
  induction l as [|y l IH]; intro H; simpl.
  - repeat constructor.
  - inversion H as [|y' l' Hl Hy]; subst.
    destruct (Nat.leb_spec (snd x) (snd y)) as [Hle | Hlt].
    + constructor; [apply IH; assumption|].
      rewrite Forall_forall in *. intros z Hz.
      apply (Permutation_in _ (insert_by_count_perm x l)) in Hz.
      destruct Hz as [<- | Hz]; [exact Hle | apply Hy; assumption].
    + constructor; [assumption|].
      constructor; [unfold count_desc; lia|].
      rewrite Forall_forall in *. intros z Hz.
      specialize (Hy z Hz). unfold count_desc in *. lia.
Qed.

Lemma order_by_count_desc_sorted (l : list (A * nat)) :
  StronglySorted count_desc (order_by_count_desc l).
Proof.
  unfold order_by_count_desc.
  assert (H : forall acc, StronglySorted count_desc acc ->
    StronglySorted count_desc
      (fold_left (fun sorted x => insert_by_count x sorted) l acc)).
  { induction l as [|x l IH]; intros acc Hacc; simpl; [assumption|].
    apply IH. apply insert_by_count_sorted. assumption. }
  apply H. constructor.
Qed.

Lemma sorted_app_order (l1 l2 : list (A * nat)) :
  StronglySorted count_desc (l1 ++ l2) ->
  forall x y, In x l1 -> In y l2 -> snd y <= snd x.
Proof.
  induction l1 as [|z l1 IH]; intros H x y Hx Hy; [contradiction|].
  simpl in H. inversion H as [|z' l' Hl Hz]; subst.
  destruct Hx as [<- | Hx].
  - rewrite Forall_forall in Hz. apply Hz. apply in_or_app. right. assumption.
  - apply IH; assumption.
Qed.

Lemma group_count_keys (l : list A) :
  map fst (group_count dec leb l) = order_by_key leb (nodup dec l).
Proof.
  unfold group_count. rewrite map_map. simpl. apply map_id.
Qed.

Lemma group_count_NoDup (l : list A) :
  NoDup (map fst (group_count dec leb l)).
Proof.
  rewrite group_count_keys.
  apply (Permutation_NoDup (Permutation_sym (order_by_key_perm _))).
  apply NoDup_nodup.
Qed.

Lemma in_group_keys (l : list A) (k : A) :
  In k (order_by_key leb (nodup dec l)) <-> In k l.
Proof.
  split; intro H.
  - apply (nodup_In dec).
    exact (Permutation_in _ (order_by_key_perm _) H).
  - apply (Permutation_in _ (Permutation_sym (order_by_key_perm _))).
    apply nodup_In. exact H.
Qed.

Lemma in_group_count (l : list A) (k : A) (n : nat) :
  In (k, n) (group_count dec leb l) <-> 0 < n /\ n = count_occ dec l k.
Proof.
  unfold group_count. rewrite in_map_iff. split.
  - intros (k' & [= -> <-] & Hin). apply (proj1 (in_group_keys l k)) in Hin.
    split; [|reflexivity]. apply count_occ_In. assumption.
  - intros [Hpos ->]. exists k. split; [reflexivity|].
    apply (proj2 (in_group_keys l k)). apply (count_occ_In dec). assumption.
Qed.

Lemma list_sum_cons (n : nat) (l : list nat) :
  list_sum (n :: l) = n + list_sum l.
Proof. reflexivity. Qed.

Lemma sum_indicator_absent (x : A) (ks : list A) :
  ~ In x ks -> list_sum (map (fun k => if dec x k then 1 else 0) ks) = 0.
Proof.
  induction ks as [|k ks IH]; intro Hnot; [reflexivity|].
  rewrite map_cons, list_sum_cons, IH.
  - destruct (dec x k) as [-> | _]; [|reflexivity].
    exfalso. apply Hnot. left. reflexivity.
  - intro H. apply Hnot. right. assumption.
Qed.

Lemma sum_indicator (x : A) (ks : list A) :
  NoDup ks -> In x ks ->
  list_sum (map (fun k => if dec x k then 1 else 0) ks) = 1.
Proof.
  induction ks as [|k ks IH]; intros Hnd Hin; [contradiction|].
  inversion Hnd as [|k' ks' Hk Hks]; subst.
  rewrite map_cons, list_sum_cons.
  destruct (dec x k) as [-> | Hne].
  - rewrite (sum_indicator_absent k ks Hk). reflexivity.
  - destruct Hin as [-> | Hin]; [contradiction|].
    rewrite (IH Hks Hin). reflexivity.
Qed.

Lemma sum_counts (l : list A) :
  forall ks, NoDup ks -> (forall x, In x l -> In x ks) ->
             list_sum (map (count_occ dec l) ks) = length l.
Proof.
  induction l as [|x l IH]; intros ks Hnd Hall.
  - clear. induction ks as [|k ks IHk]; [reflexivity|].
    rewrite map_cons, list_sum_cons, IHk. reflexivity.
  - assert (Hsplit : forall ks',
      list_sum (map (count_occ dec (x :: l)) ks')
      = list_sum (map (fun k => if dec x k then 1 else 0) ks')
        + list_sum (map (count_occ dec l) ks')).
    { induction ks' as [|k ks' IHk]; [reflexivity|].
      rewrite !map_cons, !list_sum_cons, IHk. simpl count_occ.
      destruct (dec x k); lia. }
    rewrite Hsplit, (sum_indicator x ks Hnd (Hall x (or_introl eq_refl))).
    rewrite (IH ks Hnd); [reflexivity|].
    intros y Hy. apply Hall. right. assumption.
Qed.

Lemma sum_group_count (l : list A) :
  list_sum (map snd (group_count dec leb l)) = length l.
Proof.
  unfold group_count. rewrite map_map. simpl.
  apply sum_counts.
  - apply (Permutation_NoDup (Permutation_sym (order_by_key_perm _))).
    apply NoDup_nodup.
  - intros x Hx. apply (proj2 (in_group_keys l x)). assumption.
Qed.

End Grouping.

Lemma dict_set_fresh {V : Type} (d : list (string * V)) (k : string) (v : V) :
  ~ In k (map fst d) -> dict_set d k v = d ++ [(k, v)].
Proof.
  induction d as [|[k' v'] d IH]; simpl; intro H; [reflexivity|].
  destruct (String.eqb_spec k k') as [-> | Hne].
  - exfalso. apply H. left. reflexivity.
  - rewrite IH; [reflexivity|]. intro Hin. apply H. right. assumption.
Qed.

(** A dictionary built from rows with distinct keys has the rows as they
    are. *)
Lemma dict_of_distinct (rows : list (string * nat)) :
  NoDup (map fst rows) -> dict_of (fun k => k) rows = rows.
Proof.
  unfold dict_of.
  assert (H : forall acc,
    NoDup (map fst (acc ++ rows)) ->
    fold_left (fun d row => dict_set d (fst row) (snd row)) rows acc
    = acc ++ rows).
  { induction rows as [|[k v] rows IH]; intros acc Hnd; simpl.
    - rewrite app_nil_r. reflexivity.
    - rewrite dict_set_fresh.
      + rewrite IH; rewrite <- app_assoc; [reflexivity | assumption].
      + rewrite map_app in Hnd. simpl in Hnd.
        apply NoDup_remove_2 in Hnd. intro Hin. apply Hnd.
        apply in_or_app. left. assumption. }
  intro Hnd. apply (H [] Hnd).
Qed.

Lemma list_sum_perm (l l' : list nat) :
  Permutation l l' -> list_sum l = list_sum l'.
Proof.
  induction 1; simpl; lia.
Qed.

(** X19.  The counts of [by_state] add up to [total_attorneys]: every
    stored attorney is counted under its state and under no other; the
    states of the dictionary are distinct, and a state is in it exactly
    with the number of attorneys stored under it. *)
Theorem by_state_adds_up (c : connection) :
  NoDup (map fst (by_state (get_stats c))) /\
  list_sum (map snd (by_state (get_stats c)))
  = total_attorneys (get_stats c) /\
  forall s n,
    In (s, n) (by_state (get_stats c)) <->
    0 < n /\ n = count_occ string_dec (map r_state (attorneys c)) s.
Proof.
  simpl.
  set (groups := group_count string_dec String.leb
                    (map r_state (attorneys c))).
  assert (Hperm := order_by_count_desc_perm groups).
  assert (Hkeys : NoDup (map fst (order_by_count_desc groups))).
  { apply (Permutation_NoDup
             (Permutation_map fst (Permutation_sym Hperm))).
    unfold groups. apply group_count_NoDup. }
  rewrite (dict_of_distinct _ Hkeys).
  split; [assumption|]. split.
  - rewrite (list_sum_perm _ _ (Permutation_map snd Hperm)).
    unfold groups. rewrite sum_group_count. apply length_map.
  - intros s n. rewrite <- (in_group_count string_dec String.leb). split.
    + apply (Permutation_in _ Hperm).
    + apply (Permutation_in _ (Permutation_sym Hperm)).
Qed.

Lemma firm_names_truthy (rows : list attorney_row) (k : string) :
  In k (firm_names rows) -> k <> "".
Proof.
  unfold firm_names. intro H. apply in_flat_map in H.
  destruct H as (r & _ & Hk).
  destruct (r_firm_name r) as [v|]; simpl in Hk; [|contradiction].
  destruct (String.eqb_spec v ""); simpl in Hk; [contradiction|].
  destruct Hk as [<- | []]. assumption.
Qed.

(** X20.  [top_firms] holds at most twenty firms, none with an empty name,
    each with the number of attorneys stored under it; and it holds the
    largest: a firm with more attorneys than one of the dictionary is in
    the dictionary too. *)
Theorem top_firms_are_the_largest (c : connection) :
  length (top_firms (get_stats c)) <= 20 /\
  (forall k n,
     In (k, n) (top_firms (get_stats c)) ->
     k <> "" /\ 0 < n /\
     n = count_occ string_dec (firm_names (attorneys c)) k) /\
  (forall k n k',
     In (k, n) (top_firms (get_stats c)) ->
     n < count_occ string_dec (firm_names (attorneys c)) k' ->
     In k' (map fst (top_firms (get_stats c)))).
Proof.
  unfold get_stats. cbn [top_firms].
  set (groups := group_count string_dec String.leb
                    (firm_names (attorneys c))).
  set (sorted := order_by_count_desc groups).
  assert (Hperm : Permutation sorted groups)
    by apply order_by_count_desc_perm.
  assert (Hkeys : NoDup (map fst sorted)).
  { apply (Permutation_NoDup
             (Permutation_map fst (Permutation_sym Hperm))).
    unfold groups. apply group_count_NoDup. }
  assert (Hfirst : NoDup (map fst (firstn 20 sorted))).
  { rewrite <- (firstn_skipn 20 sorted), map_app in Hkeys.
    apply NoDup_app_remove_r in Hkeys. assumption. }
  rewrite (dict_of_distinct _ Hfirst).
  split; [apply firstn_le_length|]. split.
  - intros k n Hin. apply in_firstn in Hin.
    apply (Permutation_in _ Hperm) in Hin.
    apply in_group_count in Hin. destruct Hin as [Hpos Hn].
    split; [|auto].
    apply (firm_names_truthy (attorneys c)).
    apply (count_occ_In string_dec). lia.
  - intros k n k' Hin Hlt.
    assert (Hk' : In (k', count_occ string_dec (firm_names (attorneys c)) k')
                     sorted).
    { apply (Permutation_in _ (Permutation_sym Hperm)).
      apply in_group_count. split; [lia | reflexivity]. }
    rewrite <- (firstn_skipn 20 sorted) in Hk'. apply in_app_or in Hk'.
    destruct Hk' as [Hk' | Hk'].
    + apply in_map_iff. exists (k', count_occ string_dec
                                      (firm_names (attorneys c)) k').
      auto.
    + pose proof (order_by_count_desc_sorted groups) as Hs.
      fold sorted in Hs. rewrite <- (firstn_skipn 20 sorted) in Hs.
      pose proof (sorted_app_order _ _ Hs _ _ Hin Hk') as Hle.
      simpl in Hle. lia.
Qed.

(** * Properties of [scrape] *)

Section ScrapeProperties.

Context {base : BaseBarScraper}.
Variable post_page : string -> list (string * string) -> option node.

Lemma process_result_counters (st : scraper) (e : element) :
  found st <= found (process_result st e) /\
  errors st <= errors (process_result st e).
Proof.
  unfold process_result. destruct (parse_result e); [|lia].
  destruct (save_attorney _ _) as [s' []]; simpl; lia.
Qed.

Lemma result_loop_counters (results : list element) :
  forall st : scraper,
    found st <= found (fold_left process_result results st) /\
    errors st <= errors (fold_left process_result results st).
Proof.
  induction results as [|e results IH]; intro st; simpl; [lia|].
  destruct (IH (process_result st e)), (process_result_counters st e). lia.
Qed.

Lemma parse_results_counters (fuel : nat) :
  forall soup (st : scraper),
    found st <= found (fst (parse_results fuel soup st)) /\
    errors st <= errors (fst (parse_results fuel soup st)).
Proof.
  induction fuel as [|fuel IH]; intros soup st; simpl; [lia|].
  pose proof (result_loop_counters (fst (find_results soup)) st) as Hloop.
  destruct (next_url soup) as [url|]; [|exact Hloop].
  destruct (get_page url) as [page|]; [|exact Hloop].
  match goal with
  | |- context [parse_results fuel (page, []) ?s] =>
      destruct (IH (page, []) s) as [Hf He]
  end.
  simpl in Hf, He. lia.
Qed.

Lemma search_with_spec (fuel : nat) (form : list (string * string))
    (s : scrape_state) :
  snd (search_with post_page fuel form s) = snd s ++ [(API_URL, form)] /\
  found (fst s) <= found (fst (search_with post_page fuel form s)) /\
  errors (fst s) <= errors (fst (search_with post_page fuel form s)) /\
  (post_page API_URL form = None ->
   fst (search_with post_page fuel form s) = fst s).
Proof.
  destruct s as [st posts]. unfold search_with.
  destruct (post_page API_URL form) as [page|]; [|simpl; auto].
  pose proof (parse_results_counters fuel (page, []) st) as Hc.
  destruct (parse_results fuel (page, []) st) as [st' o].
  simpl in Hc.
  destruct o; simpl; repeat split; try lia; discriminate.
Qed.

Lemma search_fold_spec (fuel : nat)
    (form_of : string -> list (string * string)) (seeds : list string) :
  forall s : scrape_state,
    let s' := fold_left (fun acc seed =>
                           search_with post_page fuel (form_of seed) acc)
                        seeds s in
    snd s' = snd s ++ map (fun seed => (API_URL, form_of seed)) seeds /\
    found (fst s) <= found (fst s') /\
    errors (fst s) <= errors (fst s') /\
    ((forall form, post_page API_URL form = None) -> fst s' = fst s).
Proof.
  induction seeds as [|seed seeds IH]; intro s; simpl.
  - rewrite app_nil_r. auto.
  - destruct (IH (search_with post_page fuel (form_of seed) s))
      as (Hp & Hf & He & Hnone).
    destruct (search_with_spec fuel (form_of seed) s)
      as (Hp1 & Hf1 & He1 & Hnone1).
    rewrite Hp, Hp1, <- app_assoc. simpl.
    repeat split; try lia.
    intro Hall. rewrite (Hnone Hall). apply Hnone1. apply Hall.
Qed.

(** X21.  [scrape] posts one search form for each of its twenty cities and
    then one for each of the twenty-six letters, in that order, whatever
    the site answers and whatever fails on the way; [found] and [errors]
    never go down; and when the site answers no form, the scraper ends as
    it started: an unanswered search is not counted as an error. *)
Theorem scrape_searches_every_seed (fuel : nat) (s : scrape_state) :
  snd (scrape post_page fuel s)
  = snd s
      ++ map (fun city_name => (API_URL, city_form city_name)) scrape_cities
      ++ map (fun letter => (API_URL, letter_form letter)) scrape_letters /\
  found (fst s) <= found (fst (scrape post_page fuel s)) /\
  errors (fst s) <= errors (fst (scrape post_page fuel s)) /\
  ((forall form, post_page API_URL form = None) ->
   fst (scrape post_page fuel s) = fst s).
Proof.
  unfold scrape, search_by_city, search_by_letter.
  destruct (search_fold_spec fuel city_form scrape_cities s)
    as (Hp1 & Hf1 & He1 & Hn1).
  destruct (search_fold_spec fuel letter_form scrape_letters
              (fold_left (fun acc seed =>
                            search_with post_page fuel (city_form seed) acc)
                         scrape_cities s))
    as (Hp2 & Hf2 & He2 & Hn2).
  cbv zeta in *.
  split; [rewrite Hp2, Hp1, <- app_assoc; reflexivity|].
  repeat split; try lia.
  intro Hall. rewrite (Hn2 Hall). apply Hn1. assumption.
Qed.

End ScrapeProperties.

(** *** The statuses *)

Section DictOf.

Context {A : Type} (key : A -> string).

Definition dict_fold (rows : list (A * nat)) (acc : list (string * nat))
  : list (string * nat) :=
  fold_left (fun d row => dict_set d (key (fst row)) (snd row)) rows acc.

Lemma lookup_dict_set {V : Type} (d : list (string * V)) (k k' : string)
    (v : V) :
  lookup k' (dict_set d k v) = if String.eqb k' k then Some v else lookup k' d.
Proof.
  induction d as [|[k0 v0] d IH]; simpl.
  - reflexivity.
  - destruct (String.eqb_spec k k0) as [-> | Hne]; simpl.
    + destruct (String.eqb k' k0); reflexivity.
    + rewrite IH. destruct (String.eqb_spec k' k0) as [-> | Hne'].
      * destruct (String.eqb_spec k0 k); [congruence | reflexivity].
      * reflexivity.
Qed.

Lemma lookup_dict_fold_absent (k : string) (rows : list (A * nat)) :
  forall acc,
    (forall a n, In (a, n) rows -> key a <> k) ->
    lookup k (dict_fold rows acc) = lookup k acc.
Proof.
  induction rows as [|[a n] rows IH]; intros acc Hno; [reflexivity|].
  unfold dict_fold in *. simpl. rewrite IH.
  - rewrite lookup_dict_set.
    destruct (String.eqb_spec k (key a)) as [-> | _]; [|reflexivity].
    exfalso. apply (Hno a n); [left|]; reflexivity.
  - intros a' n' Hin. apply (Hno a' n'). right. assumption.
Qed.

Lemma lookup_dict_fold_some (k : string) (rows : list (A * nat)) :
  forall acc v,
    lookup k (dict_fold rows acc) = Some v ->
    (exists a, In (a, v) rows /\ key a = k) \/ lookup k acc = Some v.
Proof.
  induction rows as [|[a n] rows IH]; intros acc v H; [right; assumption|].
  unfold dict_fold in *. simpl in H. apply IH in H.
  destruct H as [(a' & Hin & Hk) | H].
  - left. exists a'. split; [right|]; assumption.
  - rewrite lookup_dict_set in H.
    destruct (String.eqb_spec k (key a)) as [-> | _].
    + injection H as <-. left. exists a. split; [left|]; reflexivity.
    + right. assumption.
Qed.

Lemma lookup_dict_fold_stable (k : string) (n : nat)
    (rows : list (A * nat)) :
  (forall a' n', In (a', n') rows -> key a' = k -> n' = n) ->
  forall acc, lookup k acc = Some n ->
              lookup k (dict_fold rows acc) = Some n.
Proof.
  induction rows as [|[a0 n0] rows IH]; intros Hsame acc Hacc;
    [assumption|].
  unfold dict_fold in *. simpl. apply IH.
  - intros a' n' Hin. apply Hsame. right. assumption.
  - rewrite lookup_dict_set.
    destruct (String.eqb_spec k (key a0)) as [Hk | _]; [|assumption].
    rewrite (Hsame a0 n0 (or_introl eq_refl) (eq_sym Hk)). reflexivity.
Qed.

Lemma lookup_dict_fold_only (k : string) (rows : list (A * nat)) (a : A)
    (n : nat) :
  In (a, n) rows -> key a = k ->
  (forall a' n', In (a', n') rows -> key a' = k -> n' = n) ->
  forall acc, lookup k (dict_fold rows acc) = Some n.
Proof.
  induction rows as [|[a0 n0] rows IH]; intros Hin Hk Hsame acc;
    [contradiction|].
  assert (Hrest : forall a' n', In (a', n') rows -> key a' = k -> n' = n).
  { intros a' n' Hin'. apply Hsame. right. assumption. }
  destruct (String.eqb_spec (key a0) k) as [Hk0 | Hk0].
  - change (lookup k (dict_fold rows (dict_set acc (key a0) n0)) = Some n).
    apply lookup_dict_fold_stable; [assumption|].
    rewrite lookup_dict_set, Hk0, String.eqb_refl.
    rewrite (Hsame a0 n0 (or_introl eq_refl) Hk0). reflexivity.
  - destruct Hin as [[= -> ->] | Hin]; [contradiction|].
    change (lookup k (dict_fold rows (dict_set acc (key a0) n0)) = Some n).
    apply IH; assumption.
Qed.

End DictOf.

Lemma status_key_unknown (st : option string) :
  status_key st = "Unknown" ->
  st = None \/ st = Some "" \/ st = Some "Unknown".
Proof.
  unfold status_key, given. destruct st as [v|]; [|auto].
  simpl. destruct (String.eqb_spec v "") as [-> | Hne]; simpl; [auto|].
  intros ->. auto.
Qed.

Lemma status_key_named (st : option string) (s : string) :
  s <> "" -> s <> "Unknown" -> status_key st = s -> st = Some s.
Proof.
  unfold status_key, given. intros Hs Hu. destruct st as [v|]; simpl.
  - destruct (String.eqb_spec v ""); simpl; congruence.
  - congruence.
Qed.

(** X22.  In [by_status] a status that is neither empty nor ["Unknown"]
    has the number of attorneys stored with it.  The attorneys without a
    status, with an empty status and with the status ["Unknown"] share the
    one key ["Unknown"], and what is stored under it is the count of one of
    these three groups, not their sum. *)
Theorem by_status_counts (c : connection) :
  (forall s,
     s <> "" -> s <> "Unknown" ->
     lookup s (by_status (get_stats c))
     = let n := count_occ option_string_dec
                  (map r_status (attorneys c)) (Some s) in
       if n =? 0 then None else Some n) /\
  (forall n,
     lookup "Unknown" (by_status (get_stats c)) = Some n ->
     0 < n /\
     (n = count_occ option_string_dec (map r_status (attorneys c)) None \/
      n = count_occ option_string_dec (map r_status (attorneys c)) (Some "") \/
      n = count_occ option_string_dec (map r_status (attorneys c))
            (Some "Unknown"))).
Proof.
  unfold get_stats. cbn [by_status]. unfold dict_of.
  set (statuses := map r_status (attorneys c)).
  set (groups := group_count option_string_dec null_first_leb statuses).
  change (fold_left
            (fun d row => dict_set d (status_key (fst row)) (snd row))
            groups [])
    with (dict_fold status_key groups []).
  split.
  - intros s Hs Hu. cbv zeta.
    destruct (Nat.eqb_spec (count_occ option_string_dec statuses (Some s)) 0)
      as [Hz | Hnz].
    + rewrite lookup_dict_fold_absent; [reflexivity|].
      intros a n Hin Hk. apply (status_key_named a s Hs Hu) in Hk. subst a.
      apply in_group_count in Hin. lia.
    + apply (lookup_dict_fold_only status_key s groups (Some s)).
      * apply in_group_count. split; [lia | reflexivity].
      * unfold status_key, given. simpl.
        destruct (String.eqb_spec s ""); [contradiction | reflexivity].
      * intros a n Hin Hk. apply (status_key_named a s Hs Hu) in Hk. subst a.
        apply in_group_count in Hin. lia.
  - intros n H. apply lookup_dict_fold_some in H.
    destruct H as [(a & Hin & Hk) | H]; [|discriminate].
    apply in_group_count in Hin. destruct Hin as [Hpos Hn].
    split; [assumption|].
    destruct (status_key_unknown a Hk) as [-> | [-> | ->]]; auto.
Qed.

(** * Worked instances of the properties of the readers and the runner *)

Lemma run_scraper_stages_witness :
  snd (run_scraper nat (fun _ _ => counting_call) (fun _ _ => counting_call)
         (fun _ => counting_call) "TX" "attorneys.db" 0) = true <->
  raised Returned = false /\ raised Returned = false /\
  raised Returned = false.
Proof.
  apply (run_scraper_stages nat (fun _ _ => counting_call)
           (fun _ _ => counting_call) (fun _ => counting_call)
           "TX" "attorneys.db" 0 "Texas" "scrapers.texas_bar"
           "TexasBarScraper" eq_refl).
Defined.

Lemma main_initialises_first_witness :
  hd_error (main two_states false) = Some (CallInitDatabase "attorneys.db") /\
  main two_states true
  = [CallRunScraper "TX" "attorneys.db"; CallRunScraper "CA" "attorneys.db"].
Proof.
  split; [|reflexivity].
  apply (proj1 (main_initialises_first two_states false)). reflexivity.
Defined.

Lemma search_results_match_filters_witness :
  map r_full_name (search_attorneys two_attorneys area_filter) = ["Ann Lee"] /\
  In (new_row "t0" 1 ann_lee "TX" "Ann Lee") (attorneys two_attorneys).
Proof.
  split; [reflexivity|].
  apply (search_results_match_filters two_attorneys area_filter
           (new_row "t0" 1 ann_lee "TX" "Ann Lee")).
  left. reflexivity.
Defined.

Lemma search_returns_each_match_once_witness :
  map practice_area (practice_area_table two_attorneys)
  = ["Litigation"; "Family Law"; "Tax"] /\
  Permutation (search_attorneys two_attorneys area_filter)
              (filter (search_matches two_attorneys area_filter)
                 (attorneys two_attorneys)).
Proof.
  split; [reflexivity|].
  apply (proj2 (proj2 (search_returns_each_match_once two_attorneys
                         area_filter))).
  - left. reflexivity.
  - repeat constructor; simpl; intuition discriminate.
Defined.


Lemma top_firms_are_the_largest_witness :
  top_firms (get_stats two_attorneys) = [("Acme LLP", 1)] /\
  "Acme LLP" <> "".
Proof.
  split; [reflexivity|].
  apply (proj1 (proj2 (top_firms_are_the_largest two_attorneys))
           "Acme LLP" 1).
  left. reflexivity.
Defined.

Lemma scrape_searches_every_seed_witness :
  length (snd (@scrape (spec_scraper no_site) silent_site 3
                 (new_scraper no_site, []))) = 46 /\
  fst (@scrape (spec_scraper no_site) silent_site 3
         (new_scraper no_site, [])) = new_scraper no_site.
Proof.
  split; [reflexivity|].
  apply (@scrape_searches_every_seed (spec_scraper no_site) silent_site 3
           (new_scraper no_site, [])).
  reflexivity.
Defined.

Lemma by_status_counts_witness :
  map r_status (attorneys two_attorneys) = [Some "Active"; None] /\
  lookup "Active" (by_status (get_stats two_attorneys)) = Some 1.
Proof.
  split; [reflexivity|].
  apply (proj1 (by_status_counts two_attorneys) "Active");
    discriminate.
Defined.

(** X23.  When no result block is selected and the page has no matching
    table, or one without a row after the first, all three strategies run
    and the candidates are the matching divs: a result table that holds a
    header row only does not end the cascade. *)
Theorem cascade_falls_back_to_divs (soup : element) :
  is_empty (select_results soup) = true ->
  find_table soup = None \/
  (exists table, find_table soup = Some table /\
                 is_empty (rows_after_header table) = true) ->
  find_results soup = (find_divs soup, [ResultBlocks; TableRows; GenericDivs]).
Proof.
  intros Hsel Htab. unfold find_results. rewrite Hsel.
  destruct Htab as [-> | (table & -> & Hrows)].
  - rewrite Hsel. reflexivity.
  - rewrite Hrows. reflexivity.
Qed.

Lemma cascade_falls_back_to_divs_witness :
  map (fun e => tag_classes (fst e)) (fst (find_results header_only_page))
  = [["member-card"]] /\
  find_results header_only_page
  = (find_divs header_only_page, [ResultBlocks; TableRows; GenericDivs]).
Proof.
  split; [reflexivity|].
  apply (cascade_falls_back_to_divs header_only_page); [reflexivity|].
  right. eexists. split; reflexivity.
Defined.
